(** * Crypto trade monitor: feed producer, window aggregation and alerts

    A shallow embedding of

    - [src/ingestion/producer_binance.py]: the Binance trade producer
      ([BinanceTradeProducer]: [stop], [_on_open], [_on_message],
      [_format_trade], [start]);
    - [src/flink-jobs/anomaly_detector.py]: the SQL job (the table
      [trades_raw] with its watermark, the view [windowed_trades] and the
      [INSERT INTO alerts] statement), as a relation over the rows the
      window operator aggregates and, in streaming mode, over the rows as
      they arrive;
    - the windowing engine of section 4.3 of the specification, which the
      repository delegates to the stream runtime.

    Python values decoded from JSON are an inductive type, dictionaries are
    finite maps, the effects of a method (log lines, calls on the socket and
    on the Kafka client, sleeps) are returned as a trace next to the new
    object state, and Python exceptions are a result type. *)

From Stdlib Require Import ZArith Lia String Ascii List Floats.
From stdpp Require Import gmap strings list fin_maps sorting pretty.

Open Scope string_scope.
Open Scope list_scope.
Open Scope Z_scope.

(** ** Python values and the builtins the producer applies to them *)

Module Py.

(** What [json.loads] returns: [None], booleans, integers (unbounded),
    floats (binary64), strings, lists and dictionaries keyed by strings. *)
#[warnings="-register-all"]
Inductive pyval : Type :=
| PNone
| PBool (b : bool)
| PInt (z : Z)
| PFloat (f : float)
| PStr (s : string)
| PList (l : list pyval)
| PDict (d : gmap string pyval).

(** The exception classes that occur. All but the last two derive from
    [Exception]; [JSONDecodeError] derives from [ValueError]. *)
Inductive exn : Type :=
| JSONDecodeError
| AttributeError
| TypeError
| ValueError
| OverflowError
| BufferError
| KafkaException
| KeyboardInterrupt
| SystemExit.

Definition exn_name (e : exn) : string :=
  match e with
  | JSONDecodeError => "JSONDecodeError"
  | AttributeError => "AttributeError"
  | TypeError => "TypeError"
  | ValueError => "ValueError"
  | OverflowError => "OverflowError"
  | BufferError => "BufferError"
  | KafkaException => "KafkaException"
  | KeyboardInterrupt => "KeyboardInterrupt"
  | SystemExit => "SystemExit"
  end.

(** [isinstance(e, json.JSONDecodeError)] *)
Definition is_JSONDecodeError (e : exn) : bool :=
  match e with JSONDecodeError => true | _ => false end.

(** [isinstance(e, Exception)] *)
Definition is_Exception (e : exn) : bool :=
  match e with KeyboardInterrupt | SystemExit => false | _ => true end.

(** A computation that returns or raises. *)
Inductive result (A : Type) : Type :=
| Ok (a : A)
| Raise (e : exn).
Arguments Ok {A} a.
Arguments Raise {A} e.

#[global] Instance result_ret : MRet result := fun _ a => Ok a.

#[global] Instance result_bind : MBind result := fun _ _ k m =>
  match m with
  | Ok a => k a
  | Raise e => Raise e
  end.

(** What a computation raises, if anything, derives from [Exception]. *)
Definition catchable {A : Type} (r : result A) : Prop :=
  match r with
  | Ok _ => True
  | Raise e => is_Exception e = true
  end.

(** Truth value of an object ([bool(v)]). *)
Definition truthy (v : pyval) : bool :=
  match v with
  | PNone => false
  | PBool b => b
  | PInt z => negb (z =? 0)
  | PFloat f => negb (PrimFloat.eqb f 0%float)
  | PStr s => negb (String.eqb s "")
  | PList l => match l with [] => false | _ => true end
  | PDict d => negb (bool_decide (map_to_list d = []))
  end.

(** [a or b] *)
Definition py_or (a b : pyval) : pyval := if truthy a then a else b.

(** [d.get(k)] and [d.get(k, default)] *)
Definition dict_get (d : gmap string pyval) (k : string) : pyval :=
  default PNone (d !! k).

Definition dict_get_default (d : gmap string pyval) (k : string) (dflt : pyval) : pyval :=
  default dflt (d !! k).

(** *** [int(v)] *)

Definition is_space (c : ascii) : bool :=
  let n := nat_of_ascii c in
  ((9 <=? n) && (n <=? 13) || (n =? 32))%nat.

Definition digit_value (c : ascii) : option Z :=
  let n := Z.of_nat (nat_of_ascii c) in
  if (48 <=? n) && (n <=? 57) then Some (n - 48) else None.

Definition is_underscore (c : ascii) : bool := (nat_of_ascii c =? 95)%nat.

Fixpoint drop_spaces (l : list ascii) : list ascii :=
  match l with
  | c :: l' => if is_space c then drop_spaces l' else l
  | [] => []
  end.

(** Digits with single underscores between them, most significant first;
    [acc] is the value read so far and [after_digit] tells whether the
    previous character was a digit. *)
Fixpoint parse_digits (l : list ascii) (acc : Z) (after_digit : bool) : option Z :=
  match l with
  | [] => if after_digit then Some acc else None
  | c :: l' =>
      match digit_value c with
      | Some d => parse_digits l' (10 * acc + d) true
      | None =>
          if is_underscore c && after_digit
          then match l' with
               | c' :: _ =>
                   match digit_value c' with
                   | Some _ => parse_digits l' acc false
                   | None => None
                   end
               | [] => None
               end
          else None
      end
  end.

(** [int(s)] for a string of ASCII characters: surrounding white space is
    ignored, then an optional sign, then decimal digits. (The interpreter's
    limit on the number of digits is not modelled, nor are the digits and
    the white space outside ASCII that [int] accepts.) *)
Definition int_of_str (s : string) : option Z :=
  let body := drop_spaces (rev (drop_spaces (rev (list_ascii_of_string s)))) in
  match body with
  | c :: l' =>
      if (nat_of_ascii c =? 45)%nat then Z.opp <$> parse_digits l' 0 false
      else if (nat_of_ascii c =? 43)%nat then parse_digits l' 0 false
      else parse_digits body 0 false
  | [] => None
  end.

(** [int(f)] for a float: truncation toward zero; [nan] and the infinities
    raise. *)
Definition int_of_float (f : float) : result Z :=
  match Prim2SF f with
  | S754_zero _ => Ok 0
  | S754_infinity _ => Raise OverflowError
  | S754_nan => Raise ValueError
  | S754_finite sign m e =>
      let mag := if 0 <=? e then Z.pos m * 2 ^ e else Z.pos m / 2 ^ (- e) in
      Ok (if sign then - mag else mag)
  end.

Definition py_int (v : pyval) : result Z :=
  match v with
  | PInt z => Ok z
  | PBool b => Ok (if b then 1 else 0)
  | PFloat f => int_of_float f
  | PStr s => match int_of_str s with Some z => Ok z | None => Raise ValueError end
  | PNone | PList _ | PDict _ => Raise TypeError
  end.

(** *** [s.upper()] and [s.lower()] on ASCII text

    A string is a sequence of 8-bit characters. The models of the methods
    of [str] ([upper], [lower], [strip], [int]) are those of Python on
    ASCII text; what Python does to other characters is not modelled, and
    a statement that depends on it is made for ASCII text. *)

Definition upper_ascii (c : ascii) : ascii :=
  let n := nat_of_ascii c in
  if ((97 <=? n) && (n <=? 122))%nat then ascii_of_nat (n - 32) else c.

Fixpoint upper (s : string) : string :=
  match s with
  | EmptyString => EmptyString
  | String c s' => String (upper_ascii c) (upper s')
  end.

Fixpoint lower (s : string) : string :=
  match s with
  | EmptyString => EmptyString
  | String c s' =>
      let n := nat_of_ascii c in
      String (if ((65 <=? n) && (n <=? 90))%nat then ascii_of_nat (n + 32) else c) (lower s')
  end.

(** [v.upper()]: only strings have the method. *)
Definition py_upper (v : pyval) : result string :=
  match v with
  | PStr s => Ok (upper s)
  | _ => Raise AttributeError
  end.

(** [str(v)]; [repr] renders floats, lists and dictionaries. *)
Definition py_str (repr : pyval -> string) (v : pyval) : string :=
  match v with
  | PNone => "None"
  | PBool true => "True"
  | PBool false => "False"
  | PInt z => pretty z
  | PStr s => s
  | PFloat _ | PList _ | PDict _ => repr v
  end.

(** [s[:n]] *)
Fixpoint str_take (n : nat) (s : string) : string :=
  match n, s with
  | S n', String c s' => String c (str_take n' s')
  | _, _ => EmptyString
  end.

(** [sep.join(l)] *)
Fixpoint join (sep : string) (l : list string) : string :=
  match l with
  | [] => ""
  | [x] => x
  | x :: l' => x +:+ sep +:+ join sep l'
  end.

End Py.

(** ** The Binance trade producer ([src/ingestion/producer_binance.py]) *)

Module Producer.
Import Py.

Definition DEFAULT_SYMBOLS : list string := ["BTCUSDT"; "ETHUSDT"; "BNBUSDT"].
Definition BINANCE_BASE_STREAM : string := "wss://stream.binance.com:9443/stream?streams=".
Definition DEFAULT_TOPIC : string := "trades.raw".
Definition EXCHANGE : string := "binance".

(** [build_stream_url]; [override] is the environment variable
    [BINANCE_STREAM_URL]. *)
Definition build_stream_url (override : option string) (symbols : list string) : string :=
  let streams := join "/" (map (fun symbol => lower symbol +:+ "@trade") symbols) in
  match override with
  | Some url => if String.eqb url "" then BINANCE_BASE_STREAM +:+ streams else url
  | None => BINANCE_BASE_STREAM +:+ streams
  end.

(** The dictionary [_format_trade] returns, in the order of its keys.
    [price] and [qty] are whatever the payload holds under ["p"] and ["q"]. *)
Record TradeRecord : Type := {
  ts : Z;
  ingest_ts : Z;
  exchange : string;
  symbol : string;
  trade_id : string;
  side : string;
  price : pyval;
  qty : pyval
}.

Inductive log_level : Type := DEBUG | INFO | WARNING | ERROR.

(** What a method does to the world outside the object, in program order.
    [KafkaProduce topic key value] stands for
    [kafka_producer.produce(topic, key=key, value=json.dumps(value), ...)]. *)
Inductive effect : Type :=
| Log (level : log_level) (fmt : string) (args : list string)
| WsConnect (url : string)
| WsClose
| KafkaProduce (topic key : string) (value : TradeRecord)
| KafkaPoll (timeout : Z)
| KafkaFlush (timeout : Z)
| Sleep (seconds : Z).

Definition is_produce (e : effect) : bool :=
  match e with KafkaProduce _ _ _ => true | _ => false end.

(** The sleeps of a trace, in order. *)
Definition sleeps (t : list effect) : list Z :=
  omap (fun e => match e with Sleep n => Some n | _ => None end) t.

(** The fields of a [BinanceTradeProducer] that its methods read or write.
    [ws_app] is [None] until [start] creates the first [WebSocketApp]. *)
Record producer : Type := {
  symbols : list string;
  topic : string;
  ws_app : option string;
  stop_event : bool;
  stream_url : string;
  _backoff_seconds : Z
}.

(** [__init__] *)
Definition init (override : option string) (symbols : list string) (topic : string) : producer :=
  {| symbols := symbols;
     topic := topic;
     ws_app := None;
     stop_event := false;
     stream_url := build_stream_url override symbols;
     _backoff_seconds := 1 |}.

Definition set_stop_event (p : producer) : producer :=
  {| symbols := symbols p; topic := topic p; ws_app := ws_app p;
     stop_event := true; stream_url := stream_url p;
     _backoff_seconds := _backoff_seconds p |}.

Definition set_backoff (b : Z) (p : producer) : producer :=
  {| symbols := symbols p; topic := topic p; ws_app := ws_app p;
     stop_event := stop_event p; stream_url := stream_url p;
     _backoff_seconds := b |}.

Definition set_ws_app (w : string) (p : producer) : producer :=
  {| symbols := symbols p; topic := topic p; ws_app := Some w;
     stop_event := stop_event p; stream_url := stream_url p;
     _backoff_seconds := _backoff_seconds p |}.

(** [stop]: the call of [ws_app.close()] is recorded whether or not it
    raises, since the exception is swallowed. *)
Definition stop (p : producer) : producer * list effect :=
  if stop_event p then (p, [])
  else
    (set_stop_event p,
     [Log INFO "Stopping Binance producer ..." []]
       ++ (match ws_app p with Some _ => [WsClose] | None => [] end)
       ++ [KafkaFlush 10]).

(** [_on_open] *)
Definition _on_open (p : producer) : producer * list effect :=
  (set_backoff 1 p,
   [Log INFO "Connected to Binance stream (%s) for %s"
      [stream_url p; join "," (symbols p)]]).

(** [_on_close] *)
Definition _on_close (p : producer) : producer * list effect :=
  (p, [Log WARNING "Binance stream closed." []]).

(** [_on_error] *)
Definition _on_error (error : string) (p : producer) : producer * list effect :=
  (p, if stop_event p then [] else [Log ERROR "WebSocket error: %s" [error]]).

(** What the environment decides when a message is handled: the clock
    reading [int(time.time() * 1000)] and whether [produce] raises
    ([BufferError] when the client's queue is full, [KafkaException]
    otherwise). *)
Inductive produce_failure : Type := QueueFull | ClientError.

Definition produce_exn (f : produce_failure) : exn :=
  match f with QueueFull => BufferError | ClientError => KafkaException end.

Record msg_env : Type := {
  now_ms : Z;
  produce_raises : option produce_failure
}.

(** What the socket library reports to the callbacks during one
    [run_forever], and a termination signal handled by [_graceful_exit].
    An event stands for a callback, or for the signal handler, run from
    its start to its end before the next one starts: a signal that
    interrupts a callback, or the handler itself, is not described. *)
Inductive ws_event : Type :=
| EvOpen
| EvMessage (env : msg_env) (message : string)
| EvError (error : string)
| EvClose
| EvSignal.

Section Handlers.

(** [json.loads], [None] where it raises [JSONDecodeError]. *)
Variable json_loads : string -> option pyval.

(** [repr], which [str] uses for floats, lists and dictionaries. *)
Variable repr : pyval -> string.

(** [_format_trade] *)
Definition _format_trade (now_ms : Z) (trade : gmap string pyval) : result TradeRecord :=
  let ingest_ts := now_ms in
  ts ← py_int (py_or (py_or (dict_get trade "T") (dict_get trade "E")) (PInt ingest_ts));
  let side := if truthy (dict_get trade "m") then "sell" else "buy" in
  symbol ← py_upper (dict_get_default trade "s" (PStr ""));
  mret {| ts := ts;
          ingest_ts := ingest_ts;
          exchange := EXCHANGE;
          symbol := symbol;
          trade_id := py_str repr (dict_get_default trade "t"
                                     (dict_get_default trade "a" (PInt ingest_ts)));
          side := side;
          price := dict_get_default trade "p" (PStr "0");
          qty := dict_get_default trade "q" (PStr "0") |}.

(** [trade.get("e") != "trade"] is false *)
Definition is_trade_event (v : pyval) : bool :=
  match v with PStr s => String.eqb s "trade" | _ => false end.

(** The [try] block of [_on_message]: the effects performed, or the
    exception raised (every raise precedes the first effect). *)
Definition _on_message_try (env : msg_env) (message : string) (p : producer)
  : result (list effect) :=
  payload ← match json_loads message with
            | Some v => Ok v
            | None => Raise JSONDecodeError
            end;
  data ← match payload with
         | PDict d => Ok (dict_get d "data")
         | _ => Raise AttributeError
         end;
  let trade := py_or data payload in
  if negb (truthy trade) then Ok []
  else
    match trade with
    | PDict t =>
        if negb (is_trade_event (dict_get t "e")) then Ok []
        else
          record ← _format_trade (now_ms env) t;
          match produce_raises env with
          | Some f => Raise (produce_exn f)
          | None => Ok [KafkaProduce (topic p) (symbol record) record; KafkaPoll 0]
          end
    | _ => Raise AttributeError
    end.

(** [_on_message]: the [except] clauses in order. An exception that is no
    [Exception] would propagate. *)
Definition _on_message (env : msg_env) (message : string) (p : producer)
  : result (list effect) :=
  match _on_message_try env message p with
  | Ok t => Ok t
  | Raise e =>
      if is_JSONDecodeError e
      then Ok [Log WARNING "Invalid JSON payload: %s" [str_take 200 message]]
      else if is_Exception e
      then Ok [Log ERROR "Failed to process trade: %s" [exn_name e]]
      else Raise e
  end.

(** One callback, or the signal handler. *)
Definition dispatch (ev : ws_event) (p : producer) : result (producer * list effect) :=
  match ev with
  | EvOpen => Ok (_on_open p)
  | EvMessage env message => t ← _on_message env message p; Ok (p, t)
  | EvError error => Ok (_on_error error p)
  | EvClose => Ok (_on_close p)
  | EvSignal => Ok (stop p)
  end.

(** [ws_app.run_forever(...)] for the events of one connection. *)
Fixpoint run_forever (events : list ws_event) (p : producer)
  : result (producer * list effect) :=
  match events with
  | [] => Ok (p, [])
  | ev :: events' =>
      r ← dispatch ev p;
      r' ← run_forever events' r.1;
      Ok (r'.1, r.2 ++ r'.2)
  end.

(** [start]: one iteration of the loop per connection; [sessions] lists the
    events of the connections made so far, so that the result describes the
    run up to the end of the last of them. *)
Fixpoint start (sessions : list (list ws_event)) (p : producer)
  : result (producer * list effect) :=
  if stop_event p then Ok (p, [Log INFO "Producer loop exited" []])
  else
    match sessions with
    | [] => Ok (p, [])
    | events :: sessions' =>
        let p1 := set_ws_app (stream_url p) p in
        r ← run_forever events p1;
        let p2 := r.1 in
        if stop_event p2
        then Ok (p2, WsConnect (stream_url p) :: r.2 ++ [Log INFO "Producer loop exited" []])
        else
          let wait := [Log WARNING "WebSocket disconnected, retrying in %s seconds"
                         [pretty (_backoff_seconds p2)];
                       Sleep (_backoff_seconds p2)] in
          let p3 := set_backoff (Z.min (_backoff_seconds p2 * 2) 60) p2 in
          r' ← start sessions' p3;
          Ok (r'.1, WsConnect (stream_url p) :: r.2 ++ wait ++ r'.2)
    end.

End Handlers.

(** Whether the connection of a session was opened, and whether a
    termination signal arrived during it. *)
Definition opened (events : list ws_event) : bool :=
  existsb (fun ev => match ev with EvOpen => true | _ => false end) events.

Definition signalled (events : list ws_event) : bool :=
  existsb (fun ev => match ev with EvSignal => true | _ => false end) events.

(** The trade a decoded payload carries when the handler takes it for a
    trade message: [payload.get("data") or payload] is a non-empty
    dictionary whose ["e"] is ["trade"]. *)
Definition trade_message (payload : pyval) : option (gmap string pyval) :=
  match payload with
  | PDict d =>
      match py_or (dict_get d "data") payload with
      | PDict t =>
          if truthy (PDict t) && is_trade_event (dict_get t "e") then Some t else None
      | _ => None
      end
  | _ => None
  end.

(** Sample inputs: a trade event as Binance documents it, one without
    trade time and trade id, one with a trade time that is no number, one
    with nothing but its type, and an event of another type. *)
Definition binance_trade : gmap string pyval :=
  list_to_map [("e", PStr "trade"); ("E", PInt 1672515782136); ("s", PStr "bnbbtc");
               ("t", PInt 12345); ("p", PStr "0.001"); ("q", PStr "100");
               ("T", PInt 1672515782100); ("m", PBool true); ("M", PBool true)].

Definition trade_without_T : gmap string pyval :=
  list_to_map [("e", PStr "trade"); ("E", PInt 1700000000000); ("a", PInt 77);
               ("s", PStr "BTCUSDT"); ("p", PStr "42000.5"); ("q", PStr "0.25")].



Definition kline_event : gmap string pyval :=
  list_to_map [("e", PStr "kline"); ("E", PInt 1700000000000); ("s", PStr "BTCUSDT")].

(** What [_format_trade] makes of [binance_trade] at [1700000000123]. *)
Definition binance_record : TradeRecord :=
  {| ts := 1672515782100;
     ingest_ts := 1700000000123;
     exchange := "binance";
     symbol := "BNBBTC";
     trade_id := "12345";
     side := "sell";
     price := PStr "0.001";
     qty := PStr "100" |}.

(** The texts of [kline_event] and of [trade_with_bad_T], and a decoder
    that knows one text only. *)
Definition quoted (s : string) : string :=
  String (ascii_of_nat 34) (s +:+ String (ascii_of_nat 34) EmptyString).

Definition kline_text : string :=
  "{" +:+ quoted "e" +:+ ":" +:+ quoted "kline" +:+ ","
      +:+ quoted "E" +:+ ":1700000000000,"
      +:+ quoted "s" +:+ ":" +:+ quoted "BTCUSDT" +:+ "}".


Definition decodes_to (text : string) (v : pyval) : string -> option pyval :=
  fun message => if String.eqb message text then Some v else None.


Definition sample_producer : producer := init None DEFAULT_SYMBOLS DEFAULT_TOPIC.

Definition sample_env : msg_env := {| now_ms := 1700000000123; produce_raises := None |}.

(** The delay the specification gives the [k]-th consecutive failure
    (counted from 0): 1 doubled [k] times, capped at 60. *)
Definition backoff_delay (k : nat) : Z := Z.min (2 ^ Z.of_nat k) 60.

End Producer.

(** ** The producer's start-up helpers ([src/ingestion/producer_binance.py]) *)

Module Setup.
Import Py Producer.

(** The ASCII characters [str.strip] removes. *)
Definition is_whitespace (c : ascii) : bool :=
  let n := nat_of_ascii c in
  ((9 <=? n) && (n <=? 13) || (28 <=? n) && (n <=? 32))%nat.

(** [s.lstrip()], [s.rstrip()] and [s.strip()] *)
Fixpoint lstrip (s : string) : string :=
  match s with
  | String c s' => if is_whitespace c then lstrip s' else s
  | EmptyString => EmptyString
  end.

Fixpoint rstrip (s : string) : string :=
  match s with
  | String c s' =>
      let r := rstrip s' in
      if is_whitespace c && String.eqb r "" then EmptyString else String c r
  | EmptyString => EmptyString
  end.

Definition strip (s : string) : string := lstrip (rstrip s).

(** [s.split(sep)] for a separator of one character: the pieces between
    the separators, empty ones included. *)
Fixpoint split (sep : ascii) (s : string) : list string :=
  match s with
  | EmptyString => [EmptyString]
  | String c s' =>
      if Ascii.eqb c sep then EmptyString :: split sep s'
      else match split sep s' with
           | piece :: pieces => String c piece :: pieces
           | [] => [String c EmptyString]
           end
  end.

(** [parse_symbols] *)
Definition parse_symbols (raw : string) : list string :=
  let symbols :=
    map (fun s => upper (strip s))
        (List.filter (fun s => negb (String.eqb (strip s) "")) (split "," raw)) in
  match symbols with
  | [] => DEFAULT_SYMBOLS
  | _ => symbols
  end.

(** A dictionary literal and [d.update(...)]: the pairs are set in order. *)
Definition dict_update (pairs : list (string * string)) (d : gmap string string)
  : gmap string string :=
  fold_left (fun d kv => <[kv.1 := kv.2]> d) pairs d.

(** [os.getenv(name, dflt)] *)
Definition getenv_default (env : gmap string string) (name dflt : string) : string :=
  default dflt (env !! name).

(** [build_kafka_conf]; [env] is the process environment. *)
Definition build_kafka_conf (env : gmap string string) (bootstrap client_id : string)
  : gmap string string :=
  let conf := dict_update [("bootstrap.servers", bootstrap);
                           ("client.id", client_id);
                           ("queue.buffering.max.messages", "200000");
                           ("linger.ms", "20");
                           ("enable.idempotence", "true")] ∅ in
  let username := default "" (env !! "KAFKA_USERNAME") in
  let password := default "" (env !! "KAFKA_PASSWORD") in
  if negb (String.eqb username "") && negb (String.eqb password "")
  then dict_update
         [("security.protocol", getenv_default env "KAFKA_SECURITY_PROTOCOL" "SASL_SSL");
          ("sasl.mechanism", getenv_default env "KAFKA_SASL_MECHANISM" "PLAIN");
          ("sasl.username", username);
          ("sasl.password", password)] conf
  else conf.

(** ASCII text, on which [upper], [lower] and [strip] are those of Python. *)
Definition is_ascii (s : string) : bool :=
  forallb (fun c => (nat_of_ascii c <? 128)%nat) (list_ascii_of_string s).

(** A symbol as [parse_symbols] leaves it: not empty, without a comma,
    without white space at either end and in upper case. *)
Fixpoint has_char (c : ascii) (s : string) : bool :=
  match s with
  | String c' s' => Ascii.eqb c' c || has_char c s'
  | EmptyString => false
  end.

Definition clean (s : string) : Prop :=
  s <> "" /\ has_char "," s = false /\ strip s = s /\ upper s = s.

(** What a trace holds of the calls on the Kafka client and on the socket:
    the records produced with their topic and key, and the numbers of
    flushes and of closes. *)
Definition produced (t : list effect) : list (string * string * TradeRecord) :=
  omap (fun e => match e with
                 | KafkaProduce topic key value => Some (topic, key, value)
                 | _ => None
                 end) t.

Definition flushes (t : list effect) : nat :=
  length (List.filter (fun e => match e with KafkaFlush _ => true | _ => false end) t).

Definition closes (t : list effect) : nat :=
  length (List.filter (fun e => match e with WsClose => true | _ => false end) t).

(** The error lines [_on_error] writes. *)
Definition is_socket_error (e : effect) : bool :=
  match e with
  | Log ERROR fmt _ => String.eqb fmt "WebSocket error: %s"
  | _ => false
  end.

(** The messages of a session and of a run, each with the environment it
    is handled in. *)
Definition session_messages (events : list ws_event) : list (msg_env * string) :=
  omap (fun ev => match ev with
                  | EvMessage env message => Some (env, message)
                  | _ => None
                  end) events.

Definition messages (sessions : list (list ws_event)) : list (msg_env * string) :=
  concat (map session_messages sessions).

(** The sessions the loop of [start] gets to: those up to the first one
    during which a termination signal arrives. *)
Fixpoint served (sessions : list (list ws_event)) : list (list ws_event) :=
  match sessions with
  | [] => []
  | events :: sessions' =>
      if signalled events then [events] else events :: served sessions'
  end.

(** The record a message stands for: the one [_format_trade] returns on the
    trade its text decodes to, when the client accepts it. *)
Definition record_of (json_loads : string -> option pyval) (repr : pyval -> string)
    (m : msg_env * string) : option TradeRecord :=
  payload ← json_loads m.2;
  trade ← trade_message payload;
  match _format_trade repr (now_ms m.1) trade, produce_raises m.1 with
  | Ok record, None => Some record
  | _, _ => None
  end.

End Setup.

(** ** SQL timestamps as the alert job uses them

    A [TIMESTAMP_LTZ(3)] is its number of milliseconds since
    1970-01-01 00:00:00 UTC. Strings are rendered and read in the session
    time zone, taken to be UTC, in the proleptic Gregorian calendar. *)

Module SqlTime.

(** [TO_TIMESTAMP_LTZ(ms, 3)] *)
Definition TO_TIMESTAMP_LTZ (ms : Z) : Z := ms.

(** [INTERVAL 'n' SECOND] in milliseconds *)
Definition INTERVAL_SECOND (n : Z) : Z := n * 1000.

(** Year, month and day of a day number (days since 1970-01-01). *)
Definition civil_from_days (z : Z) : Z * Z * Z :=
  let z := z + 719468 in
  let era := z / 146097 in
  let doe := z - era * 146097 in
  let yoe := (doe - doe / 1460 + doe / 36524 - doe / 146096) / 365 in
  let doy := doe - (365 * yoe + yoe / 4 - yoe / 100) in
  let mp := (5 * doy + 2) / 153 in
  let d := doy - (153 * mp + 2) / 5 + 1 in
  let m := if mp <? 10 then mp + 3 else mp - 9 in
  let y := yoe + era * 400 in
  (if m <=? 2 then y + 1 else y, m, d).

(** Day number of a date. *)
Definition days_from_civil (y m d : Z) : Z :=
  let y := if m <=? 2 then y - 1 else y in
  let era := y / 400 in
  let yoe := y - era * 400 in
  let doy := (153 * (if 2 <? m then m - 3 else m + 9) + 2) / 5 + d - 1 in
  let doe := yoe * 365 + yoe / 4 - yoe / 100 + doy in
  era * 146097 + doe - 719468.

Definition digit_char (d : Z) : ascii := ascii_of_nat (48 + Z.to_nat d).

(** [n] in [width] decimal digits, zero padded. *)
Fixpoint pad (width : nat) (n : Z) (rest : string) : string :=
  match width with
  | O => rest
  | S w => pad w (n / 10) (String (digit_char (n mod 10)) rest)
  end.

(** [CAST(t AS STRING)] for a timestamp: [yyyy-MM-dd HH:mm:ss.SSS]. *)
Definition CAST_TIMESTAMP_AS_STRING (t : Z) : string :=
  let secs := t / 1000 in
  let '(y, m, d) := civil_from_days (secs / 86400) in
  let sod := secs mod 86400 in
  let fraction := pad 3 (t mod 1000) "" in
  let second := pad 2 (sod mod 60) (String "." fraction) in
  let minute := pad 2 (sod mod 3600 / 60) (String ":" second) in
  let hour := pad 2 (sod / 3600) (String ":" minute) in
  let day := pad 2 d (String " " hour) in
  let month := pad 2 m (String "-" day) in
  pad 4 y (String "-" month).

(** Reads [width] decimal digits. *)
Fixpoint read_digits (width : nat) (acc : Z) (s : string) : option (Z * string) :=
  match width with
  | O => Some (acc, s)
  | S w =>
      match s with
      | String c s' =>
          match Py.digit_value c with
          | Some d => read_digits w (10 * acc + d) s'
          | None => None
          end
      | EmptyString => None
      end
  end.

Definition read_char (c : ascii) (s : string) : option string :=
  match s with
  | String c' s' => if Ascii.eqb c c' then Some s' else None
  | EmptyString => None
  end.

(** [UNIX_TIMESTAMP(s)]: the seconds since the epoch of a string that
    starts with [yyyy-MM-dd HH:mm:ss]; what follows is ignored. [None] when
    the string does not parse. *)
Definition UNIX_TIMESTAMP (s : string) : option Z :=
  '(y, s) ← read_digits 4 0 s;
  s ← read_char "-" s;
  '(m, s) ← read_digits 2 0 s;
  s ← read_char "-" s;
  '(d, s) ← read_digits 2 0 s;
  s ← read_char " " s;
  '(h, s) ← read_digits 2 0 s;
  s ← read_char ":" s;
  '(mi, s) ← read_digits 2 0 s;
  s ← read_char ":" s;
  '(sec, _) ← read_digits 2 0 s;
  Some (days_from_civil y m d * 86400 + h * 3600 + mi * 60 + sec).

(** The last millisecond of the year 9999. *)
Definition MAX_TIMESTAMP : Z := 253402300799999.

End SqlTime.

(** ** The SQL job ([src/flink-jobs/anomaly_detector.py]) *)

Module AnomalyDetector.
Import SqlTime.

(** The engine's [DOUBLE]: the operations the two statements apply to it.
    Nothing is assumed of them, so that what is proved holds for binary64
    arithmetic as for exact decimals. *)
Class SqlDouble (D : Type) : Type := {
  (** [CAST(s AS DOUBLE)] *)
  CAST_AS_DOUBLE : string -> D;
  (** a [BIGINT] as a [DOUBLE] *)
  double_of_bigint : Z -> D;
  double_plus : D -> D -> D;
  double_div : D -> D -> D;
  (** [x > y] *)
  double_gt : D -> D -> bool;
  (** [CAST(x AS STRING)] *)
  CAST_DOUBLE_AS_STRING : D -> string
}.

(** A row of the table [trades_raw]; [rowtime] is a computed column. *)
Record TradeRow : Type := {
  ts : Z;
  ingest_ts : Z;
  exchange : string;
  symbol : string;
  trade_id : string;
  side : string;
  price : string;
  qty : string
}.

Definition rowtime (r : TradeRow) : Z := TO_TIMESTAMP_LTZ (ts r).

(** [WATERMARK FOR rowtime AS rowtime - INTERVAL '5' SECOND] *)
Definition watermark_of (r : TradeRow) : Z := rowtime r - INTERVAL_SECOND 5.

(** [TUMBLE(t, size)]: the window a timestamp falls in, by its start, and
    [TUMBLE_END]. *)
Definition TUMBLE_START (t size : Z) : Z := t - t mod size.

Definition TUMBLE_END (t size : Z) : Z := TUMBLE_START t size + size.

(** The trades of the key [(e, s)] whose event time lies in
    [[windowStart, windowStart + 10 s)]. *)
Definition in_window (e s : string) (windowStart : Z) (r : TradeRow) : Prop :=
  exchange r = e /\ symbol r = s
  /\ windowStart <= ts r < windowStart + INTERVAL_SECOND 10.

#[global] Instance in_window_dec e s windowStart r : Decision (in_window e s windowStart r).
Proof. unfold in_window. apply _. Defined.

Section Job.

Context {D : Type} `{SqlDouble D}.

(** A row of the view [windowed_trades]. *)
Record WindowRow : Type := {
  window_end : Z;
  w_symbol : string;
  w_exchange : string;
  volume : D;
  avg_price : D
}.

(** A row of the table [alerts]. [a_ts] is [None] where [UNIX_TIMESTAMP]
    cannot read the string it is given. *)
Record AlertRow : Type := {
  a_ts : option Z;
  a_symbol : string;
  a_exchange : string;
  signal : string;
  a_volume : string;
  a_avg_price : string
}.

(** [SUM] and [AVG] over the values of a group, in the order of the rows. *)
Definition SUM (l : list D) : D := fold_left double_plus l (double_of_bigint 0).

Definition AVG (l : list D) : D :=
  double_div (SUM l) (double_of_bigint (Z.of_nat (length l))).

(** [GROUP BY TUMBLE(rowtime, INTERVAL '10' SECOND), symbol, exchange] *)
Definition group_key (r : TradeRow) : Z * string * string :=
  (TUMBLE_START (rowtime r) (INTERVAL_SECOND 10), symbol r, exchange r).

(** The rows of one group. *)
Definition group_rows (k : Z * string * string) (trades_raw : list TradeRow) : list TradeRow :=
  filter (fun r => group_key r = k) trades_raw.

(** The [SELECT] list of the view, for the group [k]. *)
Definition window_row (k : Z * string * string) (rows : list TradeRow) : WindowRow :=
  {| window_end := k.1.1 + INTERVAL_SECOND 10;
     w_symbol := k.1.2;
     w_exchange := k.2;
     volume := SUM (map (fun r => CAST_AS_DOUBLE (qty r)) rows);
     avg_price := AVG (map (fun r => CAST_AS_DOUBLE (price r)) rows) |}.

(** The view [windowed_trades] as a relation: one row per group of the
    rows it is given. In streaming mode these are the rows the window
    operator aggregates (see [Streaming.admitted]), and a row of the view
    is given out when its window closes (see [Streaming.emitted_rows]). *)
Definition windowed_trades (trades_raw : list TradeRow) : list WindowRow :=
  map (fun k => window_row k (group_rows k trades_raw))
      (remove_dups (map group_key trades_raw)).

(** The [SELECT] list of the [INSERT INTO alerts] statement. *)
Definition alert_row (w : WindowRow) : AlertRow :=
  {| a_ts := (fun secs => secs * 1000)
               <$> UNIX_TIMESTAMP (CAST_TIMESTAMP_AS_STRING (window_end w));
     a_symbol := w_symbol w;
     a_exchange := w_exchange w;
     signal := "volume_spike";
     a_volume := CAST_DOUBLE_AS_STRING (volume w);
     a_avg_price := CAST_DOUBLE_AS_STRING (avg_price w) |}.

(** [WHERE volume > 1.0] *)
Definition where_volume (w : WindowRow) : bool :=
  double_gt (volume w) (CAST_AS_DOUBLE "1.0").

(** [INSERT INTO alerts SELECT ... FROM windowed_trades WHERE volume > 1.0]:
    the rows appended to [alerts] for the rows of the view. *)
Definition insert_into_alerts (windows : list WindowRow) : list AlertRow :=
  map alert_row (List.filter where_volume windows).

(** The job as a relation: from the rows aggregated to the rows of
    [alerts]. *)
Definition main (trades_raw : list TradeRow) : list AlertRow :=
  insert_into_alerts (windowed_trades trades_raw).

End Job.

Arguments WindowRow D : clear implicits.

(** *** Binary64 as the engine's [DOUBLE] *)

Definition float_of_Z (z : Z) : float :=
  if z <? 0 then PrimFloat.opp (PrimFloat.of_uint63 (Uint63.of_Z (- z)))
  else PrimFloat.of_uint63 (Uint63.of_Z z).

(** Digits and at most one point: the digits read as an integer, and how
    many of them follow the point. *)
Fixpoint read_decimal (l : list ascii) (mantissa : Z) (scale : option Z) : option (Z * Z) :=
  match l with
  | [] => Some (mantissa, default 0 scale)
  | c :: l' =>
      match Py.digit_value c with
      | Some d => read_decimal l' (10 * mantissa + d) ((fun k => k + 1) <$> scale)
      | None =>
          if (nat_of_ascii c =? 46)%nat
          then match scale with
               | None => read_decimal l' mantissa (Some 0)
               | Some _ => None
               end
          else None
      end
  end.

(** A decimal numeral as a float: the quotient of two integers, which is
    the nearest float when the numeral has at most 15 digits, as those of
    the scenarios have. Longer numerals, and the forms with an exponent or a
    sign [+] that the engine also reads, are not modelled: the value
    given for them is not the engine's. A text that is no numeral is
    [nan]. *)
Definition float_of_decimal (s : string) : float :=
  let l := list_ascii_of_string s in
  let '(neg, l) := match l with
                   | c :: l' => if (nat_of_ascii c =? 45)%nat then (true, l') else (false, l)
                   | [] => (false, l)
                   end in
  match l, read_decimal l 0 None with
  | _ :: _, Some (m, k) =>
      let x := PrimFloat.div (float_of_Z m) (float_of_Z (10 ^ k)) in
      if neg then PrimFloat.opp x else x
  | _, _ => PrimFloat.nan
  end.

(** Binary64, with [show] for [CAST(x AS STRING)]. *)
Definition binary64 (show : float -> string) : SqlDouble float :=
  {| CAST_AS_DOUBLE := float_of_decimal;
     double_of_bigint := float_of_Z;
     double_plus := PrimFloat.add;
     double_div := PrimFloat.div;
     double_gt := fun x y => PrimFloat.ltb y x;
     CAST_DOUBLE_AS_STRING := show |}.

(** Scenarios A and B of the specification: trades of one window of
    [BTCUSDT] with quantities 0.4, 0.5, 0.3 and with quantities 0.2, 0.3. *)
Definition btc_trade (t : Z) (id quantity : string) : TradeRow :=
  {| ts := t; ingest_ts := t + 40; exchange := "binance"; symbol := "BTCUSDT";
     trade_id := id; side := "buy"; price := "42000.5"; qty := quantity |}.

Definition scenario_A : list TradeRow :=
  [btc_trade 1700000000000 "1" "0.4";
   btc_trade 1700000004200 "2" "0.5";
   btc_trade 1700000009999 "3" "0.3"].

Definition scenario_B : list TradeRow :=
  [btc_trade 1700000000000 "1" "0.2";
   btc_trade 1700000004200 "2" "0.3"].

(** A row whose window would end off a whole second. *)
Definition off_second_row : WindowRow float :=
  {| window_end := 1700000010999; w_symbol := "BTCUSDT"; w_exchange := "binance";
     volume := float_of_decimal "1.2"; avg_price := float_of_decimal "42000.5" |}.

End AnomalyDetector.

(** ** What identifies the rows of the view and of the table [alerts] *)

Module JobKeys.
Import SqlTime AnomalyDetector.

(** The group a row of the view stands for: its window by its start, its
    symbol and its exchange. *)
Definition group_of {D : Type} (w : WindowRow D) : Z * string * string :=
  (window_end w - INTERVAL_SECOND 10, w_symbol w, w_exchange w).

(** The columns that tell one alert from another. *)
Definition alert_key (a : AlertRow) : option Z * string * string :=
  (a_ts a, a_symbol a, a_exchange a).

End JobKeys.

(** ** The windowing engine (specification, section 4.3)

    The job hands window closure, watermarks and late data to the stream
    runtime, which is no part of the repository. The engine below is the
    specification's algorithm, over the rows of [trades_raw] ([ts] is the
    trade's [eventTime]) and with the rows of [windowed_trades] as
    WindowResults. *)

Module WindowingEngine.
Import AnomalyDetector.

Section Engine.

Context {D : Type} `{SqlDouble D}.

(** Modelled from the spec: the configuration surface's window size and
    allowed lateness, in milliseconds. *)
Variable windowSizeMs : Z.
Variable allowedLateness : Z.

(** Modelled from the spec: WindowAccumulator, [count], [sumQty] and
    [sumPrice] of the trades of one window. *)
Record WindowAccumulator : Type := {
  count : Z;
  sumQty : D;
  sumPrice : D
}.

(** Modelled from the spec: the state of one (exchange, symbol) key: its
    open accumulators by [windowStart], [maxObservedEventTime] and
    [closedBoundary], both [None] until they are first set. *)
Record KeyState : Type := {
  accumulators : gmap Z WindowAccumulator;
  maxObservedEventTime : option Z;
  closedBoundary : option Z
}.

(** Modelled from the spec: the engine's state partitioned by key, the
    WindowResults emitted so far (oldest first) and the late-dropped
    counter. *)
Record Engine : Type := {
  keys : gmap (string * string) KeyState;
  emitted : list (WindowRow D);
  lateDropped : nat
}.

(** Modelled from the spec: a key without traffic, and the engine at start. *)
Definition empty_key : KeyState :=
  {| accumulators := ∅; maxObservedEventTime := None; closedBoundary := None |}.

Definition init : Engine := {| keys := ∅; emitted := []; lateDropped := 0 |}.

(** Modelled from the spec:
    [windowStart = floor(eventTime / windowSizeMs) * windowSizeMs]. *)
Definition windowStart (t : Z) : Z := t / windowSizeMs * windowSizeMs.

(** Modelled from the spec: [windowStart < closedBoundary], the late-data
    test of step 1. *)
Definition late (ks : KeyState) (t : Z) : bool :=
  match closedBoundary ks with
  | Some b => windowStart t <? b
  | None => false
  end.

(** Modelled from the spec: step 1's update,
    [count += 1; sumQty += qty; sumPrice += price], on the accumulator
    looked up or created. *)
Definition accumulate (tr : TradeRow) (a : option WindowAccumulator) : WindowAccumulator :=
  let a := default {| count := 0;
                      sumQty := double_of_bigint 0;
                      sumPrice := double_of_bigint 0 |} a in
  {| count := count a + 1;
     sumQty := double_plus (sumQty a) (CAST_AS_DOUBLE (qty tr));
     sumPrice := double_plus (sumPrice a) (CAST_AS_DOUBLE (price tr)) |}.

(** Modelled from the spec: the WindowResult snapshot of a closed window,
    [volume = sumQty] and [avgPrice = sumPrice / count]. *)
Definition snapshot (k : string * string) (w : Z * WindowAccumulator) : WindowRow D :=
  {| window_end := w.1 + windowSizeMs;
     w_symbol := k.2;
     w_exchange := k.1;
     volume := sumQty w.2;
     avg_price := double_div (sumPrice w.2) (double_of_bigint (count w.2)) |}.

(** Modelled from the spec: [windowEnd <= watermark], the closure test of
    step 3. *)
Definition closes (watermark : Z) (w : Z * WindowAccumulator) : Prop :=
  w.1 + windowSizeMs <= watermark.

#[global] Instance closes_dec watermark w : Decision (closes watermark w).
Proof. unfold closes. apply _. Defined.

(** Modelled from the spec: ascending [windowEnd] order. *)
Definition ascending (x y : Z * WindowAccumulator) : Prop := x.1 <= y.1.

#[global] Instance ascending_dec x y : Decision (ascending x y).
Proof. unfold ascending. apply _. Defined.

(** Modelled from the spec: the windows step 3 closes, in ascending
    [windowEnd] order. *)
Definition closing (watermark : Z) (accs : gmap Z WindowAccumulator)
  : list (Z * WindowAccumulator) :=
  merge_sort ascending (filter (closes watermark) (map_to_list accs)).

(** Modelled from the spec: [closedBoundary = max(closedBoundary, windowEnd)]. *)
Definition advance (b : option Z) (w : Z * WindowAccumulator) : option Z :=
  Some (match b with
        | Some b => Z.max b (w.1 + windowSizeMs)
        | None => w.1 + windowSizeMs
        end).

(** Modelled from the spec: steps 1 to 3 on the state of the trade's key:
    the new state, the WindowResults emitted and whether the trade was
    dropped. *)
Definition ingest_key (k : string * string) (tr : TradeRow) (ks : KeyState)
  : KeyState * list (WindowRow D) * bool :=
  let t := ts tr in
  let dropped := late ks t in
  let accs1 := if dropped then accumulators ks
               else <[windowStart t := accumulate tr (accumulators ks !! windowStart t)]>
                      (accumulators ks) in
  let maxObserved := match maxObservedEventTime ks with
                     | Some m => Z.max m t
                     | None => t
                     end in
  let watermark := maxObserved - allowedLateness in
  let closed := closing watermark accs1 in
  ({| accumulators := filter (fun w => ¬ closes watermark w) accs1;
      maxObservedEventTime := Some maxObserved;
      closedBoundary := fold_left advance closed (closedBoundary ks) |},
   map (snapshot k) closed,
   dropped).

(** Modelled from the spec: the engine on receiving one TradeRecord. *)
Definition ingest (st : Engine) (tr : TradeRow) : Engine :=
  let k := (exchange tr, symbol tr) in
  let r := ingest_key k tr (default empty_key (keys st !! k)) in
  {| keys := <[k := r.1.1]> (keys st);
     emitted := emitted st ++ r.1.2;
     lateDropped := if r.2 then S (lateDropped st) else lateDropped st |}.

(** Modelled from the spec: the engine after a sequence of TradeRecords. *)
Definition run (trades : list TradeRow) : Engine := fold_left ingest trades init.

(** Modelled from the spec: the per-key watermark,
    [maxObservedEventTime - allowedLateness]. *)
Definition watermark (st : Engine) (k : string * string) : option Z :=
  ks ← keys st !! k;
  m ← maxObservedEventTime ks;
  Some (m - allowedLateness).

(** Modelled from the spec: (exchange, symbol, windowStart) of a WindowResult. *)
Definition WindowKey (r : WindowRow D) : string * string * Z :=
  (w_exchange r, w_symbol r, window_end r - windowSizeMs).

(** What the proofs keep of a key's state: open windows start on a
    multiple of the window size, at or after the closed boundary and end
    after the watermark; the closed boundary is a multiple of the window
    size and not after the watermark. *)
Definition at_or_after (b : option Z) (windowStart : Z) : Prop :=
  match b with
  | Some b => b <= windowStart
  | None => True
  end.

Record key_invariant (ks : KeyState) : Prop := {
  open_aligned : forall ws a,
    accumulators ks !! ws = Some a -> ws mod windowSizeMs = 0;
  open_not_closed : forall ws a,
    accumulators ks !! ws = Some a -> at_or_after (closedBoundary ks) ws;
  open_after_watermark : forall ws a m,
    accumulators ks !! ws = Some a -> maxObservedEventTime ks = Some m ->
    m - allowedLateness < ws + windowSizeMs;
  boundary_aligned : forall b,
    closedBoundary ks = Some b -> b mod windowSizeMs = 0;
  boundary_watermark : forall b,
    closedBoundary ks = Some b ->
    exists m, maxObservedEventTime ks = Some m /\ b <= m - allowedLateness
}.

(** What the proofs keep of the engine: every key's state as above, every
    emitted WindowResult ends at or before the closed boundary of its key,
    and no two of them have the same WindowKey. *)
Record invariant (st : Engine) : Prop := {
  keys_invariant : forall k ks, keys st !! k = Some ks -> key_invariant ks;
  emitted_closed : forall r,
    r ∈ emitted st ->
    exists ks b, keys st !! (w_exchange r, w_symbol r) = Some ks
                 /\ closedBoundary ks = Some b /\ window_end r <= b;
  emitted_once : NoDup (WindowKey <$> emitted st)
}.

End Engine.

(** Trades of [BTCUSDT] at the event times 21 s, 10 s and 25 s: the
    second is 6 s behind the watermark the first leaves. *)
Definition out_of_order : list TradeRow :=
  [btc_trade 21000 "1" "0.4"; btc_trade 10000 "2" "0.7"; btc_trade 25000 "3" "0.1"].

(** Scenario C of the specification: the window [[0 s, 10 s)] is closed by
    a trade at 15 s, and then a trade at 9 s arrives. *)
Definition scenario_C_closing : list TradeRow :=
  [btc_trade 1000 "1" "0.4"; btc_trade 4200 "2" "0.5"; btc_trade 15000 "3" "0.3"].

Definition scenario_C_late : TradeRow := btc_trade 9000 "4" "0.8".

Definition scenario_C : list TradeRow := scenario_C_closing ++ [scenario_C_late].

End WindowingEngine.

(** ** The job in streaming mode

    The job runs in streaming mode ([EnvironmentSettings.in_streaming_mode])
    on a table with a watermark: the rows of [trades_raw] reach the window
    operator one by one, a row that is late is left out of its window, and
    a window's row is given out when the window closes. *)

Module Streaming.
Import SqlTime AnomalyDetector.

(** A row as the window operator receives it: the row and the operator's
    watermark at that moment. The runtime advances the watermark on a
    periodic tick, from the values the declaration
    [WATERMARK FOR rowtime AS rowtime - INTERVAL '5' SECOND] gives for the
    rows read so far. *)
Record Arrival : Type := {
  row : TradeRow;
  operator_watermark : Z
}.

(** The watermark before any row is read. *)
Definition MIN_WATERMARK : Z := - 2 ^ 63.

(** What the declaration allows the runtime: the operator's watermark
    never goes back, and it is at most the greatest declared watermark of
    the rows read before ([bound]). *)
Fixpoint consistent_from (previous bound : Z) (arrivals : list Arrival) : bool :=
  match arrivals with
  | [] => true
  | a :: arrivals' =>
      (previous <=? operator_watermark a) && (operator_watermark a <=? bound)
      && consistent_from (operator_watermark a)
           (Z.max bound (watermark_of (row a))) arrivals'
  end.

Definition consistent (arrivals : list Arrival) : bool :=
  consistent_from MIN_WATERMARK MIN_WATERMARK arrivals.

(** A row is late when the watermark has reached the last millisecond of
    its window; the window operator leaves it out. *)
Definition late (a : Arrival) : bool :=
  TUMBLE_END (rowtime (row a)) (INTERVAL_SECOND 10) - 1 <=? operator_watermark a.

(** The rows the window operator aggregates, in the order of arrival. *)
Definition admitted (arrivals : list Arrival) : list TradeRow :=
  map row (List.filter (fun a => negb (late a)) arrivals).

Section Job.

Context {D : Type} `{SqlDouble D}.

(** The rows the view has given out once the watermark is [wm], after the
    arrivals: the row of a window is given out when the watermark reaches
    the window's last millisecond, and aggregates the rows admitted. *)
Definition emitted_rows (arrivals : list Arrival) (wm : Z) : list (WindowRow D) :=
  filter (fun w => window_end w - 1 <= wm) (windowed_trades (admitted arrivals)).

(** The alerts the job has written by then. *)
Definition emitted_alerts (arrivals : list Arrival) (wm : Z) : list AlertRow :=
  insert_into_alerts (emitted_rows arrivals wm).

End Job.

(** Scenario C of the specification as the operator may see it: the
    watermark has reached 10 s when the trade at 9 s arrives. *)
Definition scenario_C_arrivals : list Arrival :=
  [ {| row := btc_trade 1000 "1" "0.4"; operator_watermark := MIN_WATERMARK |};
    {| row := btc_trade 4200 "2" "0.5"; operator_watermark := -4000 |};
    {| row := btc_trade 15000 "3" "0.3"; operator_watermark := -800 |};
    {| row := btc_trade 9000 "4" "0.8"; operator_watermark := 10000 |} ].

End Streaming.

(** * Properties of the producer *)

Module ProducerProofs.
Import Py Producer.

Lemma sleeps_app (t1 t2 : list effect) : sleeps (t1 ++ t2) = sleeps t1 ++ sleeps t2.
Proof. unfold sleeps. apply omap_app. Qed.

Lemma stop_sets_event (p : producer) : stop_event (stop p).1 = true.
Proof. unfold stop. destruct (stop_event p) eqn:E; simpl; auto. Qed.

Lemma stop_when_set (p : producer) : stop_event p = true -> stop p = (p, []).
Proof. intros E. unfold stop. now rewrite E. Qed.

Lemma stop_sleeps (p : producer) : sleeps (stop p).2 = [].
Proof. unfold stop. destruct (stop_event p), (ws_app p); reflexivity. Qed.

Section WithBuiltins.

Variable json_loads : string -> option pyval.
Variable repr : pyval -> string.

Lemma catchable_bind {A B : Type} (m : result A) (k : A -> result B) :
  catchable m -> (forall a, catchable (k a)) -> catchable (m ≫= k).
Proof. destruct m as [a|e]; simpl; auto. Qed.

Lemma py_int_catchable v : catchable (py_int v).
Proof.
  destruct v; simpl; auto.
  - unfold int_of_float. destruct (Prim2SF f); simpl; auto.
  - destruct (int_of_str s); simpl; auto.
Qed.

Lemma py_upper_catchable v : catchable (py_upper v).
Proof. destruct v; simpl; auto. Qed.

Lemma format_trade_catchable now trade : catchable (_format_trade repr now trade).
Proof.
  unfold _format_trade.
  apply catchable_bind; [apply py_int_catchable|intros ts].
  apply catchable_bind; [apply py_upper_catchable|intros sym]. exact I.
Qed.

Lemma on_message_try_catchable env message p :
  catchable (_on_message_try json_loads repr env message p).
Proof.
  unfold _on_message_try.
  apply catchable_bind; [destruct (json_loads message); simpl; auto|intros payload].
  apply catchable_bind; [destruct payload; simpl; auto|intros data].
  destruct (negb (truthy (py_or data payload))); [exact I|].
  destruct (py_or data payload); simpl; auto.
  destruct (negb _); [exact I|].
  apply catchable_bind; [apply format_trade_catchable|intros record].
  destruct (produce_raises env) as [[]|]; simpl; auto.
Qed.

Lemma on_message_returns env message p :
  exists t, _on_message json_loads repr env message p = Ok t.
Proof.
  unfold _on_message.
  destruct (_on_message_try json_loads repr env message p) as [t|e] eqn:E; eauto.
  destruct (is_JSONDecodeError e); eauto.
  pose proof (on_message_try_catchable env message p) as C.
  rewrite E in C. simpl in C. rewrite C. eauto.
Qed.

Lemma bind_Ok {A B : Type} (m : result A) (k : A -> result B) b :
  m ≫= k = Ok b -> exists a, m = Ok a /\ k a = Ok b.
Proof. destruct m as [a|e]; simpl; [eauto|discriminate]. Qed.

(** A message that is handled without an exception is dropped, or one
    record is produced and the client polled. *)
Lemma on_message_try_trace env message p t :
  _on_message_try json_loads repr env message p = Ok t ->
  t = [] \/ exists record, t = [KafkaProduce (topic p) (symbol record) record; KafkaPoll 0].
Proof.
  unfold _on_message_try. intros E.
  apply bind_Ok in E as (payload & _ & E).
  apply bind_Ok in E as (data & _ & E).
  destruct (negb (truthy (py_or data payload))); [injection E as <-; auto|].
  destruct (py_or data payload); try discriminate.
  destruct (negb _); [injection E as <-; auto|].
  apply bind_Ok in E as (record & _ & E).
  destruct (produce_raises env); [discriminate|]. injection E as <-. eauto.
Qed.

Lemma on_message_sleeps env message p t :
  _on_message json_loads repr env message p = Ok t -> sleeps t = [].
Proof.
  unfold _on_message.
  destruct (_on_message_try json_loads repr env message p) as [t'|e] eqn:E.
  - intros [= <-]. destruct (on_message_try_trace _ _ _ _ E) as [->|[r ->]]; reflexivity.
  - destruct (is_JSONDecodeError e); [intros [= <-]; reflexivity|].
    destruct (is_Exception e); [intros [= <-]; reflexivity|discriminate].
Qed.

Lemma dispatch_returns ev p :
  exists p' t, dispatch json_loads repr ev p = Ok (p', t).
Proof.
  destruct ev; simpl.
  - destruct (_on_open p); eauto.
  - destruct (on_message_returns env message p) as [t ->]. simpl. eauto.
  - destruct (_on_error error p); eauto.
  - destruct (_on_close p); eauto.
  - destruct (stop p); eauto.
Qed.

(** What one callback leaves of the fields the loop reads: the stop event
    is set by a signal only and never cleared, the backoff is reset by an
    open only, and no callback sleeps. *)
Lemma dispatch_fields ev p p' t :
  dispatch json_loads repr ev p = Ok (p', t) ->
  stop_event p' = (stop_event p || match ev with EvSignal => true | _ => false end)%bool
  /\ _backoff_seconds p' = (match ev with EvOpen => 1 | _ => _backoff_seconds p end)
  /\ stream_url p' = stream_url p
  /\ sleeps t = [].
Proof.
  destruct ev; simpl.
  - intros [= <- <-]. simpl. rewrite orb_false_r. auto.
  - destruct (on_message_returns env message p) as [t' E]. rewrite E. simpl.
    intros [= <- <-]. rewrite orb_false_r. repeat split; auto.
    now apply on_message_sleeps in E.
  - intros [= <- <-]. rewrite orb_false_r. destruct (stop_event p); auto.
  - intros [= <- <-]. rewrite orb_false_r. auto.
  - intros [= E]. replace p' with (stop p).1 by now rewrite E.
    replace t with (stop p).2 by now rewrite E.
    rewrite stop_sleeps. unfold stop.
    destruct (stop_event p) eqn:Es; simpl; rewrite ?Es; auto.
Qed.

Lemma run_forever_returns events p :
  exists p' t, run_forever json_loads repr events p = Ok (p', t).
Proof.
  revert p. induction events as [|ev events IH]; intros p; simpl; eauto.
  destruct (dispatch_returns ev p) as (p1 & t1 & ->). simpl.
  destruct (IH p1) as (p2 & t2 & ->). simpl. eauto.
Qed.

Lemma run_forever_fields events p p' t :
  run_forever json_loads repr events p = Ok (p', t) ->
  stop_event p' = (stop_event p || signalled events)%bool
  /\ _backoff_seconds p' = (if opened events then 1 else _backoff_seconds p)
  /\ stream_url p' = stream_url p
  /\ sleeps t = [].
Proof.
  revert p p' t. induction events as [|ev events IH]; intros p p' t; simpl.
  - intros [= <- <-]. rewrite orb_false_r. auto.
  - destruct (dispatch_returns ev p) as (p1 & t1 & E1). rewrite E1. simpl.
    destruct (run_forever_returns events p1) as (p2 & t2 & E2). rewrite E2. simpl.
    intros [= <- <-].
    destruct (dispatch_fields _ _ _ _ E1) as (S1 & B1 & U1 & T1).
    destruct (IH _ _ _ E2) as (S2 & B2 & U2 & T2).
    rewrite sleeps_app, T1, T2, S2, B2, U2, S1, B1, U1.
    repeat split; auto.
    + now rewrite orb_assoc.
    + destruct ev; simpl; auto; destruct (opened events); auto.
Qed.

Lemma backoff_delay_next k : Z.min (backoff_delay k * 2) 60 = backoff_delay (S k).
Proof.
  unfold backoff_delay. rewrite Nat2Z.inj_succ, Z.pow_succ_r by lia.
  pose proof (Z.pow_pos_nonneg 2 (Z.of_nat k)). lia.
Qed.

Lemma backoff_delay_capped k : (6 <= k)%nat -> backoff_delay k = 60.
Proof.
  intros Hk. unfold backoff_delay.
  assert (2 ^ 6 <= 2 ^ Z.of_nat k) by (apply Z.pow_le_mono_r; lia).
  change (2 ^ 6) with 64 in *. lia.
Qed.

(** A session that ends without a signal: the loop sleeps for the backoff
    the session leaves, doubles it up to 60 and goes on. *)
Lemma start_cons events sessions p :
  stop_event p = false -> signalled events = false ->
  exists p1 t1,
    run_forever json_loads repr events (set_ws_app (stream_url p) p) = Ok (p1, t1)
    /\ stop_event p1 = false
    /\ _backoff_seconds p1 = (if opened events then 1 else _backoff_seconds p)
    /\ forall p' t',
         start json_loads repr sessions
           (set_backoff (Z.min (_backoff_seconds p1 * 2) 60) p1) = Ok (p', t') ->
         exists t, start json_loads repr (events :: sessions) p = Ok (p', t)
                   /\ sleeps t = _backoff_seconds p1 :: sleeps t'.
Proof.
  intros Hstop Hsig.
  destruct (run_forever_returns events (set_ws_app (stream_url p) p)) as (p1 & t1 & E1).
  destruct (run_forever_fields _ _ _ _ E1) as (S1 & B1 & _ & T1).
  simpl in S1, B1. rewrite Hstop, Hsig in S1. simpl in S1.
  exists p1, t1. repeat split; auto.
  intros p' t' E'. simpl. rewrite Hstop, E1. simpl. rewrite S1, E'. simpl.
  eexists. split; [reflexivity|].
  change (WsConnect (stream_url p) :: ?l) with ([WsConnect (stream_url p)] ++ l).
  rewrite !sleeps_app, T1. reflexivity.
Qed.

Lemma start_failures sessions : forall k p,
  stop_event p = false -> _backoff_seconds p = backoff_delay k ->
  Forall (fun events => opened events = false /\ signalled events = false) sessions ->
  exists p' t, start json_loads repr sessions p = Ok (p', t)
               /\ sleeps t = map backoff_delay (seq k (length sessions)).
Proof.
  induction sessions as [|events sessions IH]; intros k p Hstop Hb Hall.
  - simpl. rewrite Hstop. eauto.
  - apply Forall_cons in Hall as [[Hopen Hsig] Hall].
    destruct (start_cons events sessions p Hstop Hsig) as (p1 & t1 & _ & S1 & B1 & K).
    rewrite Hopen, Hb in B1.
    destruct (IH (S k) (set_backoff (Z.min (_backoff_seconds p1 * 2) 60) p1))
      as (p' & t' & E' & Hs); auto.
    { simpl. rewrite B1. apply backoff_delay_next. }
    destruct (K _ _ E') as (t & E & Ht).
    exists p', t. split; [exact E|]. rewrite Ht, Hs, B1. reflexivity.
Qed.

End WithBuiltins.

(** C3: in every run of the reconnect loop the delays slept after
    consecutive failed connection attempts are 1, 2, 4, 8, 16, 32, 60,
    60, ... (the [k]-th is 1 doubled [k] times, capped at 60), and after a
    session whose connection was opened the delays start again at 1,
    whatever the backoff was before. *)
Theorem backoff_sequence (json_loads : string -> option pyval) (repr : pyval -> string) :
  (forall override symbols topic sessions,
      Forall (fun events => opened events = false /\ signalled events = false) sessions ->
      exists p t,
        start json_loads repr sessions (init override symbols topic) = Ok (p, t)
        /\ sleeps t = map backoff_delay (seq 0 (length sessions)))
  /\ map backoff_delay (seq 0 8) = [1; 2; 4; 8; 16; 32; 60; 60]
  /\ (forall k, (6 <= k)%nat -> backoff_delay k = 60)
  /\ (forall p success failures,
        stop_event p = false ->
        opened success = true -> signalled success = false ->
        Forall (fun events => opened events = false /\ signalled events = false) failures ->
        exists p' t,
          start json_loads repr (success :: failures) p = Ok (p', t)
          /\ sleeps t = map backoff_delay (seq 0 (S (length failures)))).
Proof.
  split; [|split; [|split]].
  - intros override symbols topic sessions Hall.
    apply (start_failures json_loads repr sessions 0); auto.
  - reflexivity.
  - apply backoff_delay_capped.
  - intros p success failures Hstop Hopen Hsig Hall.
    destruct (start_cons json_loads repr success failures p Hstop Hsig)
      as (p1 & t1 & _ & S1 & B1 & K).
    rewrite Hopen in B1.
    destruct (start_failures json_loads repr failures 1
                (set_backoff (Z.min (_backoff_seconds p1 * 2) 60) p1))
      as (p' & t' & E' & Hs); auto.
    { simpl. rewrite B1. reflexivity. }
    destruct (K _ _ E') as (t & E & Ht).
    exists p', t. split; [exact E|]. rewrite Ht, Hs, B1. reflexivity.
Qed.

(** C9: shutdown is idempotent. After [stop] has run once, a second [stop]
    changes no field and has no effect (no log line, no close, no flush),
    also when callbacks of the connection ran in between. *)
Theorem stop_idempotent (p : producer) :
  stop (stop p).1 = ((stop p).1, [])
  /\ forall json_loads repr events p' t,
       run_forever json_loads repr events (stop p).1 = Ok (p', t) ->
       stop p' = (p', []).
Proof.
  split.
  - apply stop_when_set, stop_sets_event.
  - intros json_loads repr events p' t E.
    apply stop_when_set.
    destruct (run_forever_fields _ _ _ _ _ _ E) as (S & _).
    rewrite S, stop_sets_event. reflexivity.
Qed.

(** Cancellation: a loop that finds the stop event set exits without
    connecting, and a termination signal during a session makes the loop
    exit when the session ends, without sleeping or reconnecting, whatever
    would have followed. *)
Theorem stop_halts_reconnect (json_loads : string -> option pyval) (repr : pyval -> string) :
  (forall p sessions,
      stop_event p = true ->
      start json_loads repr sessions p = Ok (p, [Log INFO "Producer loop exited" []]))
  /\ (forall p events sessions,
        stop_event p = false -> signalled events = true ->
        exists p' t,
          start json_loads repr (events :: sessions) p =
            Ok (p', t ++ [Log INFO "Producer loop exited" []])
          /\ stop_event p' = true
          /\ sleeps t = []
          /\ start json_loads repr (events :: sessions) p = start json_loads repr [events] p).
Proof.
  split.
  - intros p sessions Hstop. destruct sessions; simpl; now rewrite Hstop.
  - intros p events sessions Hstop Hsig.
    destruct (run_forever_returns json_loads repr events (set_ws_app (stream_url p) p))
      as (p1 & t1 & E1).
    destruct (run_forever_fields _ _ _ _ _ _ E1) as (S1 & _ & _ & T1).
    simpl in S1. rewrite Hstop, Hsig in S1. simpl in S1.
    exists p1, (WsConnect (stream_url p) :: t1).
    simpl. rewrite Hstop, E1. simpl. rewrite S1.
    split; [reflexivity|]. split; [reflexivity|]. split; [exact T1|reflexivity].
Qed.

(** C7, as stated, fails: for a trade event without trade time ["T"] the
    event time is not the local receipt time but the event's ["E"], and
    without trade id ["t"] the trade id is not derived from the ingest time
    but is the event's ["a"]. *)
Lemma format_trade_fallback_counterexample :
  trade_without_T !! "T" = None
  /\ trade_without_T !! "t" = None
  /\ exists r, _format_trade (fun _ => "") 1700000000123 trade_without_T = Ok r
               /\ ingest_ts r = 1700000000123
               /\ ts r = 1700000000000
               /\ ts r <> ingest_ts r
               /\ trade_id r = "77"
               /\ trade_id r <> pretty (ingest_ts r).
Proof.
  split; [reflexivity|split; [reflexivity|]].
  eexists. split; [vm_compute; reflexivity|].
  simpl. repeat split; try reflexivity; vm_compute; discriminate.
Qed.

(** C7, amended: when [_format_trade] returns a record, its event time is
    the integer value of the trade time ["T"] if that is present and truthy,
    else of the event time ["E"] if that is present and truthy, else the
    local receipt time; its ingest time is the local receipt time; its side
    is ["sell"] when the maker flag ["m"] is truthy and ["buy"] otherwise;
    its trade id is [str] of ["t"] if present, else of ["a"] if present,
    else of the ingest time. *)
Theorem format_trade_fields (repr : pyval -> string) (now : Z)
    (trade : gmap string pyval) (r : TradeRecord) :
  _format_trade repr now trade = Ok r ->
  (truthy (dict_get trade "T") = true -> py_int (dict_get trade "T") = Ok (ts r))
  /\ (truthy (dict_get trade "T") = false -> truthy (dict_get trade "E") = true ->
      py_int (dict_get trade "E") = Ok (ts r))
  /\ (truthy (dict_get trade "T") = false -> truthy (dict_get trade "E") = false ->
      ts r = now)
  /\ ingest_ts r = now
  /\ (truthy (dict_get trade "m") = true -> side r = "sell")
  /\ (truthy (dict_get trade "m") = false -> side r = "buy")
  /\ (forall v, trade !! "t" = Some v -> trade_id r = py_str repr v)
  /\ (forall v, trade !! "t" = None -> trade !! "a" = Some v -> trade_id r = py_str repr v)
  /\ (trade !! "t" = None -> trade !! "a" = None -> trade_id r = pretty now).
Proof.
  unfold _format_trade. intros E.
  apply bind_Ok in E as (z & Ez & E).
  apply bind_Ok in E as (sym & Es & E).
  injection E as <-. simpl.
  unfold py_or in Ez. unfold dict_get_default.
  assert (Hts : py_int (if truthy (dict_get trade "T") then dict_get trade "T"
                        else if truthy (dict_get trade "E") then dict_get trade "E"
                        else PInt now) = Ok z).
  { destruct (truthy (dict_get trade "T")) eqn:HT; cbv iota in Ez.
    - now rewrite HT in Ez.
    - destruct (truthy (dict_get trade "E")) eqn:HE; cbv iota in Ez; [exact Ez|].
      destruct (truthy (PInt now)); exact Ez. }
  repeat split.
  - intros HT. now rewrite HT in Hts.
  - intros HT HE. now rewrite HT, HE in Hts.
  - intros HT HE. rewrite HT, HE in Hts. simpl in Hts. congruence.
  - now intros ->.
  - now intros ->.
  - now intros v ->.
  - now intros v -> ->.
  - now intros -> ->.
Qed.

(** The field mapping on a trade event as the exchange sends it. *)
Lemma format_trade_fields_witness :
  _format_trade (fun _ => "") 1700000000123 binance_trade = Ok binance_record
  /\ py_int (dict_get binance_trade "T") = Ok (ts binance_record)
  /\ ingest_ts binance_record = 1700000000123
  /\ side binance_record = "sell"
  /\ trade_id binance_record = py_str (fun _ => "") (PInt 12345).
Proof.
  assert (E : _format_trade (fun _ => "") 1700000000123 binance_trade = Ok binance_record)
    by (vm_compute; reflexivity).
  split; [exact E|].
  destruct (format_trade_fields _ _ _ _ E) as (HT & _ & _ & Hi & Hm & _ & Ht & _).
  split; [apply HT; vm_compute; reflexivity|].
  split; [exact Hi|].
  split; [apply Hm; vm_compute; reflexivity|].
  apply Ht. vm_compute. reflexivity.
Defined.

Section Handler.

Variable json_loads : string -> option pyval.
Variable repr : pyval -> string.

(** The [try] block on a payload taken for a trade message, and on any
    other payload. *)
Lemma on_message_try_trade env message p payload trade :
  json_loads message = Some payload -> trade_message payload = Some trade ->
  _on_message_try json_loads repr env message p =
    record ← _format_trade repr (now_ms env) trade;
    match produce_raises env with
    | Some f => Raise (produce_exn f)
    | None => Ok [KafkaProduce (topic p) (symbol record) record; KafkaPoll 0]
    end.
Proof.
  intros Hj Ht. unfold _on_message_try. rewrite Hj. simpl.
  unfold trade_message in Ht. destruct payload; try discriminate. simpl.
  destruct (py_or (dict_get d "data") (PDict d)) eqn:Hor; try discriminate.
  destruct (truthy (PDict d0)) eqn:Htr; [|discriminate].
  destruct (is_trade_event (dict_get d0 "e")) eqn:He; [|discriminate].
  injection Ht as <-. simpl. reflexivity.
Qed.

Lemma on_message_try_other env message p payload :
  json_loads message = Some payload -> trade_message payload = None ->
  _on_message_try json_loads repr env message p = Ok []
  \/ _on_message_try json_loads repr env message p = Raise AttributeError.
Proof.
  intros Hj Ht. unfold _on_message_try. rewrite Hj. simpl.
  unfold trade_message in Ht. destruct payload; simpl; auto.
  destruct (py_or (dict_get d "data") (PDict d)) as [| | | | | |d0] eqn:Hor;
    try (destruct (negb (truthy _)); now auto).
  cbv beta iota in Ht.
  destruct (truthy (PDict d0)) eqn:Htr; simpl; [|now auto].
  simpl in Ht.
  destruct (is_trade_event (dict_get d0 "e")); [discriminate|]. simpl. auto.
Qed.

End Handler.

(** C8, as stated, fails: an event of another type is dropped, but nothing
    is logged. *)
Lemma on_message_silent_drop_counterexample :
  trade_message (PDict kline_event) = None
  /\ _on_message (decodes_to kline_text (PDict kline_event)) (fun _ => "")
        sample_env kline_text sample_producer = Ok [].
Proof. split; vm_compute; reflexivity. Qed.

(** C8, amended: the handler never lets an exception out. A message that
    is no JSON is dropped with a warning. A decoded payload that is no
    object is dropped with an error log. Of a decoded object the handler
    takes the member ["data"] if it is truthy and the object itself
    otherwise: when that is empty or an object whose ["e"] is not
    ["trade"], the message is dropped silently, be it bare or wrapped as
    the combined streams wrap it; when it is truthy and no object, the
    message is dropped with an error log. A trade message whose formatting
    raises, or whose publishing raises, is dropped with an error log. A
    record is produced only for a payload taken for a trade message, which
    is formatted and which the client accepts, whichever other fields it
    lacks. *)
Theorem on_message_drops_malformed (json_loads : string -> option pyval)
    (repr : pyval -> string) (env : msg_env) (message : string) (p : producer) :
  (exists t, _on_message json_loads repr env message p = Ok t)
  /\ (json_loads message = None ->
      _on_message json_loads repr env message p =
        Ok [Log WARNING "Invalid JSON payload: %s" [str_take 200 message]])
  /\ (forall payload,
        json_loads message = Some payload -> (forall d, payload <> PDict d) ->
        _on_message json_loads repr env message p =
          Ok [Log ERROR "Failed to process trade: %s" ["AttributeError"]])
  /\ (forall d,
        json_loads message = Some (PDict d) ->
        let trade := py_or (dict_get d "data") (PDict d) in
        (truthy trade = false ->
         _on_message json_loads repr env message p = Ok [])
        /\ (forall t, trade = PDict t -> is_trade_event (dict_get t "e") = false ->
            _on_message json_loads repr env message p = Ok [])
        /\ (truthy trade = true -> (forall t, trade <> PDict t) ->
            _on_message json_loads repr env message p =
              Ok [Log ERROR "Failed to process trade: %s" ["AttributeError"]]))
  /\ (forall payload,
        json_loads message = Some payload -> trade_message payload = None ->
        _on_message json_loads repr env message p = Ok []
        \/ _on_message json_loads repr env message p =
             Ok [Log ERROR "Failed to process trade: %s" ["AttributeError"]])
  /\ (forall payload trade e,
        json_loads message = Some payload -> trade_message payload = Some trade ->
        _format_trade repr (now_ms env) trade = Raise e ->
        _on_message json_loads repr env message p =
          Ok [Log ERROR "Failed to process trade: %s" [exn_name e]])
  /\ (forall payload trade record f,
        json_loads message = Some payload -> trade_message payload = Some trade ->
        _format_trade repr (now_ms env) trade = Ok record ->
        produce_raises env = Some f ->
        _on_message json_loads repr env message p =
          Ok [Log ERROR "Failed to process trade: %s" [exn_name (produce_exn f)]])
  /\ (forall t,
        _on_message json_loads repr env message p = Ok t ->
        existsb is_produce t = true ->
        exists payload trade record,
          json_loads message = Some payload
          /\ trade_message payload = Some trade
          /\ _format_trade repr (now_ms env) trade = Ok record
          /\ produce_raises env = None
          /\ t = [KafkaProduce (topic p) (symbol record) record; KafkaPoll 0]).
Proof.
  split; [apply on_message_returns|].
  split; [|split; [|split; [|split; [|split; [|split]]]]].
  - intros Hj. unfold _on_message, _on_message_try. rewrite Hj. reflexivity.
  - intros payload Hj Hd. unfold _on_message, _on_message_try. rewrite Hj.
    destruct payload; try reflexivity. exfalso. now apply (Hd d).
  - intros d Hj trade. subst trade.
    unfold _on_message, _on_message_try. rewrite Hj.
    cbv [mbind result_bind]. cbv beta iota.
    split; [|split].
    + intros Ht. now rewrite Ht.
    + intros t Ht He. rewrite Ht.
      destruct (negb (truthy (PDict t))); [reflexivity|]. now rewrite He.
    + intros Ht Hd. rewrite Ht. cbn [negb].
      destruct (py_or (dict_get d "data") (PDict d)) as [| | | | | |t]; try reflexivity.
      exfalso. now apply (Hd t).
  - intros payload Hj Ht. unfold _on_message.
    destruct (on_message_try_other json_loads repr env message p payload Hj Ht) as [-> | ->];
      auto.
  - intros payload trade e Hj Ht Hf. unfold _on_message.
    rewrite (on_message_try_trade json_loads repr env message p payload trade Hj Ht), Hf.
    simpl. pose proof (format_trade_catchable repr (now_ms env) trade) as C.
    rewrite Hf in C. simpl in C. rewrite C.
    destruct (is_JSONDecodeError e) eqn:Ej; [|reflexivity].
    exfalso. revert Hf. unfold _format_trade.
    destruct (py_int _) as [z|e1] eqn:E1; simpl.
    + destruct (py_upper _) as [u|e2] eqn:E2; simpl; [discriminate|].
      intros [= <-]. destruct (dict_get_default trade "s" (PStr "")); simpl in E2;
        try discriminate; injection E2 as <-; discriminate.
    + intros [= <-]. revert E1. unfold py_int, int_of_float.
      destruct (py_or _ _); try (intros [= <-]; discriminate); try discriminate.
      * destruct (Prim2SF f); try discriminate; intros [= <-]; discriminate.
      * destruct (int_of_str s); try discriminate. intros [= <-]. discriminate.
  - intros payload trade record f Hj Ht Hf Hp. unfold _on_message.
    rewrite (on_message_try_trade json_loads repr env message p payload trade Hj Ht), Hf, Hp.
    destruct f; reflexivity.
  - intros t Hm Hp. unfold _on_message in Hm.
    destruct (_on_message_try json_loads repr env message p) as [t'|e] eqn:E.
    + injection Hm as <-.
      destruct (json_loads message) as [payload|] eqn:Hj;
        [|unfold _on_message_try in E; rewrite Hj in E; discriminate].
      destruct (trade_message payload) as [trade|] eqn:Ht.
      * rewrite (on_message_try_trade json_loads repr env message p payload trade Hj Ht) in E.
        apply bind_Ok in E as (record & Hf & E).
        destruct (produce_raises env) eqn:Hr; [discriminate|]. injection E as <-.
        exists payload, trade, record. auto.
      * destruct (on_message_try_other json_loads repr env message p payload Hj Ht) as [E'|E'];
          rewrite E' in E; [|discriminate]. injection E as <-. discriminate.
    + destruct (is_JSONDecodeError e); [injection Hm as <-; discriminate|].
      destruct (is_Exception e); [injection Hm as <-; discriminate|discriminate].
Qed.



End ProducerProofs.

(** * Properties of the SQL timestamp functions *)

Module SqlTimeProofs.
Import SqlTime.

(** From 1970-01-01 to 9999-12-31 the date of a day number has a year of
    four digits, a month and a day, and is the date of that day only. *)
Lemma civil_from_days_spec (z : Z) :
  0 <= z <= 2932896 ->
  let '(y, m, d) := civil_from_days z in
  0 <= y <= 9999 /\ 1 <= m <= 12 /\ 1 <= d <= 31 /\ days_from_civil y m d = z.
Proof.
  intros Hz. unfold civil_from_days, days_from_civil.
  set (z' := z + 719468).
  set (era := z' / 146097).
  set (doe := z' - era * 146097).
  set (yoe := (doe - doe / 1460 + doe / 36524 - doe / 146096) / 365).
  set (doy := doe - (365 * yoe + yoe / 4 - yoe / 100)).
  set (mp := (5 * doy + 2) / 153).
  assert (Hera : 4 <= era <= 24) by (subst era z'; Z.div_mod_to_equations; lia).
  assert (Hdoe : 0 <= doe < 146097) by (subst doe era z'; Z.div_mod_to_equations; lia).
  assert (Hlast : era = 24 -> doe <= 146036) by (subst doe era z'; Z.div_mod_to_equations; lia).
  assert (Hyoe : 0 <= yoe <= 399) by (subst yoe; Z.div_mod_to_equations; lia).
  assert (Hdoy : 0 <= doy <= 365) by (subst doy yoe; Z.div_mod_to_equations; lia).
  assert (Hy399 : yoe = 399 -> doy = doe - 145731) by (subst doy; Z.div_mod_to_equations; lia).
  assert (Hmp : 0 <= mp <= 11) by (subst mp; Z.div_mod_to_equations; lia).
  assert (Hmp9 : doy <= 305 -> mp <= 9) by (subst mp; Z.div_mod_to_equations; lia).
  assert (Hd : 1 <= doy - (153 * mp + 2) / 5 + 1 <= 31) by (subst mp; Z.div_mod_to_equations; lia).
  assert (Edoy : doy = doe - (365 * yoe + yoe / 4 - yoe / 100)) by reflexivity.
  assert (Edoe : doe = z + 719468 - era * 146097) by reflexivity.
  clearbody mp doy yoe doe era.
  destruct (mp <? 10) eqn:Emp; [apply Z.ltb_lt in Emp|apply Z.ltb_ge in Emp].
  - replace (mp + 3 <=? 2) with false by (symmetry; apply Z.leb_gt; lia).
    replace (2 <? mp + 3) with true by (symmetry; apply Z.ltb_lt; lia).
    replace ((yoe + era * 400) / 400) with era by (Z.div_mod_to_equations; lia).
    repeat split; try lia. Z.div_mod_to_equations; lia.
  - replace (mp - 9 <=? 2) with true by (symmetry; apply Z.leb_le; lia).
    replace (2 <? mp - 9) with false by (symmetry; apply Z.ltb_ge; lia).
    replace ((yoe + era * 400 + 1 - 1) / 400) with era by (Z.div_mod_to_equations; lia).
    repeat split; try lia. Z.div_mod_to_equations; lia.
Qed.

Lemma digit_value_digit_char (d : Z) :
  0 <= d <= 9 -> Py.digit_value (digit_char d) = Some d.
Proof.
  intros Hd.
  assert (Hc : d = 0 \/ d = 1 \/ d = 2 \/ d = 3 \/ d = 4 \/ d = 5 \/ d = 6 \/ d = 7
               \/ d = 8 \/ d = 9) by lia.
  repeat (destruct Hc as [-> | Hc]; [reflexivity|]). subst. reflexivity.
Qed.

(** Reading back what [pad] wrote. *)
Lemma read_digits_pad (width : nat) : forall (more : nat) (n acc : Z) (rest : string),
  0 <= n < 10 ^ Z.of_nat width ->
  read_digits (width + more) acc (pad width n rest) =
  read_digits more (acc * 10 ^ Z.of_nat width + n) rest.
Proof.
  induction width as [|width IH]; intros more n acc rest Hn.
  - simpl in *. f_equal. lia.
  - rewrite Nat2Z.inj_succ, Z.pow_succ_r in Hn |- * by lia.
    cbn [pad]. replace (S width + more)%nat with (width + S more)%nat by lia.
    rewrite IH by (Z.div_mod_to_equations; lia).
    cbn [read_digits]. rewrite digit_value_digit_char by (Z.div_mod_to_equations; lia).
    f_equal. Z.div_mod_to_equations; lia.
Qed.

Lemma read_pad (width : nat) (n : Z) (rest : string) :
  0 <= n < 10 ^ Z.of_nat width ->
  read_digits width 0 (pad width n rest) = Some (n, rest).
Proof.
  intros Hn. rewrite <- (Nat.add_0_r width) at 1.
  rewrite read_digits_pad by exact Hn. reflexivity.
Qed.


Lemma read_char_same (c : ascii) (s : string) : read_char c (String c s) = Some s.
Proof. unfold read_char. now rewrite Ascii.eqb_refl. Qed.

(** Rendering a timestamp and reading the string back gives its seconds. *)
Lemma UNIX_TIMESTAMP_CAST (t : Z) :
  0 <= t <= MAX_TIMESTAMP ->
  UNIX_TIMESTAMP (CAST_TIMESTAMP_AS_STRING t) = Some (t / 1000).
Proof.
  intros Ht. unfold MAX_TIMESTAMP in Ht. unfold CAST_TIMESTAMP_AS_STRING, UNIX_TIMESTAMP.
  set (secs := t / 1000).
  assert (Hsecs : 0 <= secs <= 253402300799) by (subst secs; Z.div_mod_to_equations; lia).
  pose proof (civil_from_days_spec (secs / 86400)
                ltac:(Z.div_mod_to_equations; lia)) as Hciv.
  destruct (civil_from_days (secs / 86400)) as [[y m] d].
  destruct Hciv as (Hy & Hm & Hd & Hdays).
  set (sod := secs mod 86400).
  assert (Hsod : 0 <= sod < 86400) by (subst sod; Z.div_mod_to_equations; lia).
  assert (H4 : 10 ^ Z.of_nat 4 = 10000) by reflexivity.
  assert (H2 : 10 ^ Z.of_nat 2 = 100) by reflexivity.
  cbv zeta.
  rewrite read_pad by lia. cbn [mbind option_bind]. 
  rewrite read_char_same. cbn [mbind option_bind].
  rewrite read_pad by lia. cbn [mbind option_bind].
  rewrite read_char_same. cbn [mbind option_bind].
  rewrite read_pad by lia. cbn [mbind option_bind].
  rewrite read_char_same. cbn [mbind option_bind].
  rewrite read_pad by (Z.div_mod_to_equations; lia). cbn [mbind option_bind].
  rewrite read_char_same. cbn [mbind option_bind].
  rewrite read_pad by (Z.div_mod_to_equations; lia). cbn [mbind option_bind].
  rewrite read_char_same. cbn [mbind option_bind].
  rewrite read_pad by (Z.div_mod_to_equations; lia). cbn [mbind option_bind].
  f_equal. rewrite Hdays. subst sod. Z.div_mod_to_equations. lia.
Qed.
End SqlTimeProofs.

(** * Properties of the SQL job *)

Module AnomalyDetectorProofs.
Import SqlTime AnomalyDetector.

Lemma TUMBLE_START_spec (t size windowStart : Z) :
  0 < size ->
  TUMBLE_START t size = windowStart <->
  windowStart mod size = 0 /\ windowStart <= t < windowStart + size.
Proof.
  intros Hsize. unfold TUMBLE_START.
  pose proof (Z.mod_pos_bound t size Hsize) as Hb.
  pose proof (Z.div_mod t size ltac:(lia)) as Hdm.
  split.
  - intros <-. split; [|lia].
    replace (t - t mod size) with (t / size * size) by lia.
    apply Z_mod_mult.
  - intros [Hm Hr].
    apply Z.mod_divide in Hm as [q ->]; [|lia].
    assert (t mod size = t - q * size); [|lia].
    symmetry. apply (Z.mod_unique t size q); [lia|lia].
Qed.

Lemma TUMBLE_START_multiple (t size : Z) : 0 < size -> TUMBLE_START t size mod size = 0.
Proof. intros Hs. now apply (TUMBLE_START_spec t size _ Hs). Qed.

Section Job.

Context {D : Type} `{SqlDouble D}.

(** The rows of a group are the trades of its key in its window. *)
Lemma group_rows_in_window (k : Z * string * string) (trades_raw : list TradeRow) :
  k.1.1 mod INTERVAL_SECOND 10 = 0 ->
  group_rows k trades_raw = filter (in_window k.2 k.1.2 k.1.1) trades_raw.
Proof.
  intros Hk. unfold group_rows. apply list_filter_iff. intros r.
  destruct k as [[ws s] e]. unfold group_key, in_window, rowtime, TO_TIMESTAMP_LTZ. simpl in *.
  split.
  - intros [= Hws <- <-].
    apply TUMBLE_START_spec in Hws; [|reflexivity]. tauto.
  - intros (<- & <- & Hr). f_equal. f_equal.
    apply TUMBLE_START_spec; [reflexivity|]. tauto.
Qed.

Lemma elem_of_windowed_trades (w : WindowRow D) (trades_raw : list TradeRow) :
  w ∈ windowed_trades trades_raw <->
  exists r, r ∈ trades_raw
            /\ w = window_row (group_key r) (group_rows (group_key r) trades_raw).
Proof.
  unfold windowed_trades. change map with (@fmap list _). rewrite list_elem_of_fmap.
  split.
  - intros (k & -> & Hk).
    apply elem_of_remove_dups, list_elem_of_fmap in Hk as (r & -> & Hr). eauto.
  - intros (r & Hr & ->). exists (group_key r). split; [reflexivity|].
    apply elem_of_remove_dups, list_elem_of_fmap. eauto.
Qed.

Lemma group_key_multiple (r : TradeRow) : (group_key r).1.1 mod INTERVAL_SECOND 10 = 0.
Proof. apply TUMBLE_START_multiple. reflexivity. Qed.

(** The view as a relation: every row of [windowed_trades] aggregates the
    rows of its (exchange, symbol) whose event time lies in the half-open
    interval [[windowStart, windowStart + 10 s)], where [windowStart] is its
    [window_end] less the window size; every row given is in the window of
    exactly one row of the view; a row whose event time is the start of a
    window is among the rows of that window, and one whose event time is
    the end of a window is not. *)
Lemma windowed_trades_spec (trades_raw : list TradeRow) :
  (forall w, w ∈ windowed_trades trades_raw ->
     let trades := filter (in_window (w_exchange w) (w_symbol w)
                             (window_end w - INTERVAL_SECOND 10)) trades_raw in
     trades <> []
     /\ volume w = SUM (map (fun r => CAST_AS_DOUBLE (qty r)) trades)
     /\ avg_price w =
          double_div (SUM (map (fun r => CAST_AS_DOUBLE (price r)) trades))
                     (double_of_bigint (Z.of_nat (length trades))))
  /\ (forall r, r ∈ trades_raw ->
        exists w, w ∈ windowed_trades trades_raw
                  /\ in_window (w_exchange w) (w_symbol w)
                       (window_end w - INTERVAL_SECOND 10) r
                  /\ forall w', w' ∈ windowed_trades trades_raw ->
                       in_window (w_exchange w') (w_symbol w')
                         (window_end w' - INTERVAL_SECOND 10) r ->
                       w' = w)
  /\ (forall r w, r ∈ trades_raw -> w ∈ windowed_trades trades_raw ->
        exchange r = w_exchange w -> symbol r = w_symbol w ->
        let trades := filter (in_window (w_exchange w) (w_symbol w)
                                (window_end w - INTERVAL_SECOND 10)) trades_raw in
        (ts r = window_end w - INTERVAL_SECOND 10 -> r ∈ trades)
        /\ (ts r = window_end w -> r ∉ trades)).
Proof.
  assert (Hrow : forall r, r ∈ trades_raw ->
            group_rows (group_key r) trades_raw =
              filter (in_window (group_key r).2 (group_key r).1.2 (group_key r).1.1)
                trades_raw
            /\ in_window (group_key r).2 (group_key r).1.2 (group_key r).1.1 r).
  { intros r Hr.
    split; [apply group_rows_in_window, group_key_multiple|].
    unfold in_window, group_key. cbn [fst snd]. split; [reflexivity|split; [reflexivity|]].
    apply (TUMBLE_START_spec (ts r) (INTERVAL_SECOND 10) _ eq_refl). reflexivity. }
  assert (Hend : forall k : Z * string * string,
            k.1.1 + INTERVAL_SECOND 10 - INTERVAL_SECOND 10 = k.1.1) by (intros; lia).
  split; [|split].
  - intros w Hw. apply elem_of_windowed_trades in Hw as (r & Hr & ->).
    destruct (Hrow r Hr) as [Hg Hin]. cbv zeta.
    assert (Hmem : r ∈ group_rows (group_key r) trades_raw)
      by (apply list_elem_of_filter; auto).
    remember (group_rows (group_key r) trades_raw) as g eqn:Eg.
    unfold window_row. cbn [window_end w_symbol w_exchange volume avg_price].
    rewrite Hend, <- Hg.
    split; [|split; [reflexivity|unfold AVG; now rewrite length_map]].
    intros Hnil. rewrite Hnil in Hmem. inversion Hmem.
  - intros r Hr. exists (window_row (group_key r) (group_rows (group_key r) trades_raw)).
    split; [apply elem_of_windowed_trades; eauto|].
    split.
    { unfold window_row. cbn [window_end w_symbol w_exchange]. rewrite Hend.
      apply (Hrow r Hr). }
    intros w' Hw' Hin'. apply elem_of_windowed_trades in Hw' as (r' & Hr' & ->).
    assert (group_key r' = group_key r) as ->; [|reflexivity].
    destruct Hin' as (He & Hs & Ht).
    unfold window_row in He, Hs, Ht. cbn [window_end w_symbol w_exchange] in He, Hs, Ht.
    rewrite Hend in Ht.
    pose proof (group_key_multiple r') as Hm.
    unfold group_key in *. cbn [fst snd] in *. f_equal; [f_equal|]; auto.
    symmetry. apply TUMBLE_START_spec; [reflexivity|]. split; [exact Hm|exact Ht].
  - intros r w Hr Hw He Hs. cbv zeta. split.
    + intros Ht. apply list_elem_of_filter. split; [|exact Hr].
      unfold in_window. repeat split; auto; rewrite Ht; unfold INTERVAL_SECOND; lia.
    + intros Ht Hin. apply list_elem_of_filter in Hin as [(_ & _ & Hin) _].
      unfold INTERVAL_SECOND in Hin. lia.
Qed.

Lemma insert_into_alerts_single (w : WindowRow D) :
  insert_into_alerts [w] =
  if double_gt (volume w) (CAST_AS_DOUBLE "1.0") then [alert_row w] else [].
Proof. unfold insert_into_alerts, where_volume. simpl. now destruct (double_gt _ _). Qed.

Lemma insert_into_alerts_app (l1 l2 : list (WindowRow D)) :
  insert_into_alerts (l1 ++ l2) = insert_into_alerts l1 ++ insert_into_alerts l2.
Proof. unfold insert_into_alerts. now rewrite List.filter_app, map_app. Qed.

Lemma window_end_range (trades_raw : list TradeRow) (w : WindowRow D) :
  Forall (fun r => 0 <= ts r <= MAX_TIMESTAMP - INTERVAL_SECOND 10) trades_raw ->
  w ∈ windowed_trades trades_raw ->
  0 <= window_end w <= MAX_TIMESTAMP /\ window_end w mod 1000 = 0.
Proof.
  intros Hall Hw. apply elem_of_windowed_trades in Hw as (r & Hr & ->).
  rewrite Forall_forall in Hall. specialize (Hall r Hr).
  unfold window_row, group_key, rowtime, TO_TIMESTAMP_LTZ. cbn [window_end fst snd].
  pose proof (TUMBLE_START_multiple (ts r) (INTERVAL_SECOND 10) eq_refl) as Hm.
  assert (Hs : TUMBLE_START (ts r) (INTERVAL_SECOND 10) <= ts r
               /\ 0 <= TUMBLE_START (ts r) (INTERVAL_SECOND 10)).
  { unfold TUMBLE_START, INTERVAL_SECOND in *. Z.div_mod_to_equations. lia. }
  unfold INTERVAL_SECOND, MAX_TIMESTAMP in *. split; [lia|].
  Z.div_mod_to_equations. lia.
Qed.

(** The view has one row per group: no two of its rows have the same
    [window_end], [symbol] and [exchange]. *)
Theorem windowed_trades_one_row_per_group (trades_raw : list TradeRow) :
  NoDup ((fun w : WindowRow D => (window_end w, w_symbol w, w_exchange w))
           <$> windowed_trades trades_raw).
Proof.
  unfold windowed_trades. change map with (@fmap list _).
  rewrite <- list_fmap_compose.
  assert (Heq : ((fun w : WindowRow D => (window_end w, w_symbol w, w_exchange w))
                 ∘ (fun k => window_row k (group_rows k trades_raw)))
                  <$> remove_dups (group_key <$> trades_raw)
                = (fun k : Z * string * string => (k.1.1 + INTERVAL_SECOND 10, k.1.2, k.2))
                  <$> remove_dups (group_key <$> trades_raw)).
  { apply list_fmap_ext. intros i k _. reflexivity. }
  rewrite Heq.
  assert (Hinj : Inj eq eq
            (fun k : Z * string * string => (k.1.1 + INTERVAL_SECOND 10, k.1.2, k.2))).
  { intros [[a b] c] [[a' b'] c'] [= Ha Hb Hc]. simpl in *. f_equal; [f_equal|]; auto. lia. }
  apply (NoDup_fmap_2 _), NoDup_remove_dups.
Qed.

(** Whatever row the [INSERT] statement is given, the [ts] it computes is
    the row's [window_end] cut to whole seconds. *)
Theorem alert_ts_whole_seconds (w : WindowRow D) :
  0 <= window_end w <= MAX_TIMESTAMP ->
  a_ts (alert_row w) = Some (window_end w / 1000 * 1000).
Proof.
  intros Hr. unfold alert_row. cbn [a_ts].
  now rewrite SqlTimeProofs.UNIX_TIMESTAMP_CAST by exact Hr.
Qed.

End Job.

(** A row that ended off a whole second would lose its milliseconds. *)
Lemma alert_ts_whole_seconds_witness :
  0 <= window_end off_second_row <= MAX_TIMESTAMP
  /\ a_ts (@alert_row float (binary64 (fun _ => "")) off_second_row)
     = Some (1700000010999 / 1000 * 1000).
Proof.
  assert (Hr : 0 <= window_end off_second_row <= MAX_TIMESTAMP)
    by (unfold MAX_TIMESTAMP; simpl; lia).
  split; [exact Hr|].
  exact (@alert_ts_whole_seconds float (binary64 (fun _ => "")) off_second_row Hr).
Defined.

(** Binary64 comparisons: the order of two floats read the other way. *)
Lemma SFcompare_antisym (x y : spec_float) :
  SFcompare y x = CompOpp <$> SFcompare x y.
Proof.
  destruct x as [sx|sx| |sx mx ex], y as [sy|sy| |sy my ey]; simpl;
    try reflexivity; try (destruct sx; reflexivity); try (destruct sy; reflexivity);
    try (destruct sx, sy; reflexivity).
  destruct sx, sy; try reflexivity; simpl;
    rewrite (Z.compare_antisym ex ey); destruct (ex ?= ey); simpl; try reflexivity;
    pose proof (Pos.compare_cont_antisym mx my Eq) as E; simpl in E;
    now rewrite <- E.
Qed.

Lemma float_le_not_gt (x y : float) :
  PrimFloat.leb x y = true -> PrimFloat.ltb y x = false.
Proof.
  rewrite leb_spec, ltb_spec. unfold SFleb, SFltb.
  rewrite (SFcompare_antisym (Prim2SF x) (Prim2SF y)).
  destruct (SFcompare (Prim2SF x) (Prim2SF y)) as [[]|]; simpl; congruence.
Qed.

(** C5: a row of [windowed_trades] yields exactly one alert, with signal
    ["volume_spike"], when its volume is greater than 1.0 and none
    otherwise, each row on its own; in binary64 a volume that is less than
    or equal to 1.0 yields none. Scenario A (quantities 0.4, 0.5, 0.3)
    has volume 1.2 and one alert; scenario B (0.2, 0.3) has volume 0.5
    and no alert. *)
Theorem volume_spike_alerts :
  (forall (D : Type) (H : SqlDouble D) (w : WindowRow D),
      (double_gt (volume w) (CAST_AS_DOUBLE "1.0") = true ->
       insert_into_alerts [w] = [alert_row w])
      /\ (double_gt (volume w) (CAST_AS_DOUBLE "1.0") = false ->
          insert_into_alerts [w] = [])
      /\ signal (alert_row w) = "volume_spike")
  /\ (forall (D : Type) (H : SqlDouble D) (before after : list (WindowRow D)) w,
        insert_into_alerts (before ++ w :: after) =
        insert_into_alerts before ++ insert_into_alerts [w] ++ insert_into_alerts after)
  /\ (forall show (w : WindowRow float),
        PrimFloat.leb (volume w) (float_of_decimal "1.0") = true ->
        @insert_into_alerts float (binary64 show) [w] = [])
  /\ (forall show,
        exists w, @windowed_trades float (binary64 show) scenario_A = [w]
                  /\ volume w = float_of_decimal "1.2"
                  /\ @main float (binary64 show) scenario_A =
                       [@alert_row float (binary64 show) w])
  /\ (forall show,
        exists w, @windowed_trades float (binary64 show) scenario_B = [w]
                  /\ volume w = float_of_decimal "0.5"
                  /\ @main float (binary64 show) scenario_B = []).
Proof.
  split; [|split; [|split; [|split]]].
  - intros D H w. rewrite insert_into_alerts_single.
    repeat split; try now intros ->.
  - intros D H before after w.
    now rewrite (insert_into_alerts_app before (w :: after)),
      (insert_into_alerts_app [w] after).
  - intros show w Hle. rewrite insert_into_alerts_single. simpl.
    now rewrite (float_le_not_gt _ _ Hle).
  - intros show. eexists. split; [vm_compute; reflexivity|].
    repeat split; vm_compute; reflexivity.
  - intros show. eexists. split; [vm_compute; reflexivity|].
    repeat split; vm_compute; reflexivity.
Qed.

(** C6: the [ts] of the alert made from a row of [windowed_trades] is the
    row's [window_end] in milliseconds, for trades with event times from
    1970 to the year 9999: what the statement computes, the seconds read
    off the rendered [window_end] times 1000, loses nothing because a window
    ends on a whole second. *)
Theorem alert_ts_window_end {D : Type} `{SqlDouble D} (trades_raw : list TradeRow) :
  Forall (fun r => 0 <= ts r <= MAX_TIMESTAMP - INTERVAL_SECOND 10) trades_raw ->
  (forall w, w ∈ windowed_trades trades_raw -> a_ts (alert_row w) = Some (window_end w))
  /\ (forall a, a ∈ main trades_raw ->
        exists w, w ∈ windowed_trades trades_raw
                  /\ a = alert_row w /\ a_ts a = Some (window_end w)).
Proof.
  intros Hall.
  assert (Hts : forall w, w ∈ windowed_trades trades_raw ->
                          a_ts (alert_row w) = Some (window_end w)).
  { intros w Hw. destruct (window_end_range trades_raw w Hall Hw) as [Hr Hm].
    unfold alert_row. cbn [a_ts].
    rewrite SqlTimeProofs.UNIX_TIMESTAMP_CAST by exact Hr.
    cbn [fmap option_fmap option_map]. f_equal. Z.div_mod_to_equations. lia. }
  split; [exact Hts|].
  intros a Ha. unfold main, insert_into_alerts in Ha.
  change map with (@fmap list _) in Ha.
  apply list_elem_of_fmap in Ha as (w & -> & Hw).
  apply list_elem_of_In, List.filter_In in Hw as [Hw _].
  apply list_elem_of_In in Hw. eauto.
Qed.

(** The alert of scenario A carries the end of its window. *)
Lemma alert_ts_window_end_witness :
  Forall (fun r => 0 <= ts r <= MAX_TIMESTAMP - INTERVAL_SECOND 10) scenario_A
  /\ forall a, a ∈ @main float (binary64 (fun _ => "")) scenario_A ->
       exists w, w ∈ @windowed_trades float (binary64 (fun _ => "")) scenario_A
                 /\ a = @alert_row float (binary64 (fun _ => "")) w
                 /\ a_ts a = Some (window_end w).
Proof.
  assert (Hall : Forall (fun r => 0 <= ts r <= MAX_TIMESTAMP - INTERVAL_SECOND 10)
                   scenario_A).
  { repeat constructor; vm_compute; discriminate. }
  split; [exact Hall|].
  exact (proj2 (@alert_ts_window_end float (binary64 (fun _ => "")) scenario_A Hall)).
Defined.

End AnomalyDetectorProofs.

(** * Properties of the windowing engine *)

Module WindowingEngineProofs.
Import AnomalyDetector WindowingEngine.
Section Engine.

Context {D : Type} `{SqlDouble D}.
Variable windowSizeMs allowedLateness : Z.
Hypothesis size_positive : 0 < windowSizeMs.

Lemma aligned_lt (a b : Z) :
  a mod windowSizeMs = 0 -> b mod windowSizeMs = 0 -> a < b -> a + windowSizeMs <= b.
Proof using size_positive.
  intros Ha Hb Hlt.
  apply Z.mod_divide in Ha as [qa ->]; [|lia].
  apply Z.mod_divide in Hb as [qb ->]; [|lia].
  assert (qa < qb) by nia. nia.
Qed.

Lemma windowStart_aligned (t : Z) : windowStart windowSizeMs t mod windowSizeMs = 0.
Proof. unfold windowStart. apply Z_mod_mult. Qed.

Lemma elem_of_closing (wm : Z) (accs : gmap Z (WindowAccumulator (D:=D))) (w : Z * WindowAccumulator) :
  w ∈ closing windowSizeMs wm accs <-> accs !! w.1 = Some w.2 /\ w.1 + windowSizeMs <= wm.
Proof.
  unfold closing. rewrite merge_sort_Permutation, list_elem_of_filter.
  destruct w as [ws a]. rewrite elem_of_map_to_list. unfold closes. simpl. tauto.
Qed.

Lemma NoDup_closing (wm : Z) (accs : gmap Z (WindowAccumulator (D:=D))) :
  NoDup (closing windowSizeMs wm accs).*1.
Proof.
  unfold closing. rewrite merge_sort_Permutation.
  apply NoDup_fmap_fst.
  - intros ws a1 a2 H1 H2. apply list_elem_of_filter in H1 as [_ H1], H2 as [_ H2].
    apply elem_of_map_to_list in H1, H2. congruence.
  - apply NoDup_filter, NoDup_map_to_list.
Qed.

Lemma advance_fold (closed : list (Z * WindowAccumulator (D:=D))) : forall b0 : option Z,
  (forall b, b0 = Some b ->
     exists b1, fold_left (advance windowSizeMs) closed b0 = Some b1 /\ b <= b1)
  /\ (forall w, w ∈ closed ->
       exists b1, fold_left (advance windowSizeMs) closed b0 = Some b1
                  /\ w.1 + windowSizeMs <= b1)
  /\ (forall b1, fold_left (advance windowSizeMs) closed b0 = Some b1 ->
       b0 = Some b1 \/ exists w, w ∈ closed /\ b1 = w.1 + windowSizeMs).
Proof.
  induction closed as [|w closed IH]; intros b0; simpl.
  - split; [|split].
    + intros b ->. exists b. split; [reflexivity|lia].
    + intros w Hw. inversion Hw.
    + auto.
  - destruct (IH (advance windowSizeMs b0 w)) as (IH1 & IH2 & IH3).
    repeat split.
    + intros b ->. destruct (IH1 _ eq_refl) as (b1 & -> & Hb). eexists. split; [reflexivity|lia].
    + intros w' [-> | Hw']%elem_of_cons; [|auto].
      destruct (IH1 _ eq_refl) as (b1 & -> & Hb). eexists. split; [reflexivity|].
      destruct b0; simpl in Hb; lia.
    + intros b1 [Hb1 | (w' & Hw' & ->)]%IH3.
      * unfold advance in Hb1. injection Hb1 as <-.
        destruct b0 as [b|]; [|right; exists w; split; [left|reflexivity]].
        destruct (Z.max_spec b (w.1 + windowSizeMs)) as [[_ ->] | [_ ->]]; [|auto].
        right. exists w. split; [left|reflexivity].
      * right. exists w'. split; [now right|reflexivity].
Qed.

(** Steps 1 to 3 keep the invariant of the key, and what they emit is new:
    each WindowResult is of the key, ends after the old closed boundary and
    not after the new one, and no two of them end together. *)
Lemma ingest_key_invariant (k : string * string) (tr : TradeRow) (ks : KeyState) :
  key_invariant windowSizeMs allowedLateness ks ->
  let r := ingest_key windowSizeMs allowedLateness k tr ks in
  key_invariant windowSizeMs allowedLateness r.1.1
  /\ (forall x, x ∈ r.1.2 ->
        w_exchange x = k.1 /\ w_symbol x = k.2
        /\ (forall b, closedBoundary ks = Some b -> b < window_end x)
        /\ exists b', closedBoundary r.1.1 = Some b' /\ window_end x <= b')
  /\ NoDup (window_end <$> r.1.2)
  /\ (forall b, closedBoundary ks = Some b ->
        exists b', closedBoundary r.1.1 = Some b' /\ b <= b').
Proof using size_positive.
  intros [Hal Hnc Haw Hba Hbw]. unfold ingest_key. cbv zeta. cbn [fst snd].
  set (t := ts tr).
  set (accs1 := if late windowSizeMs ks t then accumulators ks
                else <[windowStart windowSizeMs t :=
                         accumulate tr (accumulators ks !! windowStart windowSizeMs t)]>
                       (accumulators ks)).
  set (m' := match maxObservedEventTime ks with Some m => Z.max m t | None => t end).
  set (wm := m' - allowedLateness).
  set (closed := closing windowSizeMs wm accs1).
  assert (Hacc1 : forall ws a, accs1 !! ws = Some a ->
            ws mod windowSizeMs = 0 /\ at_or_after (closedBoundary ks) ws).
  { intros ws a. subst accs1. unfold late.
    destruct (closedBoundary ks) as [b|] eqn:Eb.
    - destruct (windowStart windowSizeMs t <? b) eqn:El; [now eauto|].
      rewrite lookup_insert. case_decide as Ews; [|now eauto].
      subst ws. intros _. split; [apply windowStart_aligned|]. simpl.
      apply Z.ltb_ge in El. exact El.
    - rewrite lookup_insert. case_decide as Ews; [|now eauto].
      subst ws. intros _. split; [apply windowStart_aligned|exact I]. }
  assert (Hm' : forall m, maxObservedEventTime ks = Some m -> m <= m').
  { intros m Em. subst m'. rewrite Em. lia. }
  destruct (advance_fold closed (closedBoundary ks)) as (Hf1 & Hf2 & Hf3).
  assert (Hclosed : forall w, w ∈ closed ->
            accs1 !! w.1 = Some w.2 /\ w.1 + windowSizeMs <= wm).
  { intros w. apply elem_of_closing. }
  split; [|split; [|split]].
  - split; cbn [accumulators maxObservedEventTime closedBoundary].
    + intros ws a [Ha _]%map_lookup_filter_Some. now apply (Hacc1 ws a).
    + intros ws a [Ha Hopen]%map_lookup_filter_Some.
      destruct (Hacc1 ws a Ha) as [Hws Hge].
      destruct (fold_left (advance windowSizeMs) closed (closedBoundary ks)) as [b1|] eqn:Ef;
        [|exact I].
      simpl. destruct (Hf3 b1 eq_refl) as [Eb | (w & Hw & ->)].
      * rewrite Eb in Hge. exact Hge.
      * destruct (Hclosed w Hw) as [Hwa Hwc].
        apply aligned_lt; [apply (Hacc1 _ _ Hwa)|exact Hws|].
        unfold closes in Hopen. simpl in Hopen. lia.
    + intros ws a m [Ha Hopen]%map_lookup_filter_Some [= <-].
      unfold closes in Hopen. simpl in Hopen. lia.
    + intros b1 [Eb | (w & Hw & ->)]%Hf3; [now apply Hba|].
      destruct (Hclosed w Hw) as [Hwa _]. destruct (Hacc1 _ _ Hwa) as [Hws _].
      rewrite Z.add_mod, Hws, Z_mod_same_full by lia. reflexivity.
    + intros b1 Hb1. exists m'. split; [reflexivity|].
      destruct (Hf3 b1 Hb1) as [Eb | (w & Hw & ->)].
      * destruct (Hbw b1 Eb) as (m & Em & Hb). specialize (Hm' m Em). lia.
      * destruct (Hclosed w Hw) as [_ Hle]. subst wm. lia.
  - intros x (w & -> & Hw)%list_elem_of_fmap. unfold snapshot. cbn [w_exchange w_symbol window_end].
    destruct (Hclosed w Hw) as [Hwa Hwc]. destruct (Hacc1 _ _ Hwa) as [Hws Hge].
    repeat split.
    + intros b Eb. rewrite Eb in Hge. simpl in Hge. lia.
    + apply (Hf2 w Hw).
  - change map with (@fmap list _). rewrite <- list_fmap_compose.
    assert (Heq : (window_end ∘ snapshot windowSizeMs k) <$> closed
                  = (fun ws => ws + windowSizeMs) <$> closed.*1).
    { rewrite <- list_fmap_compose. apply list_fmap_ext. intros i w _. reflexivity. }
    rewrite Heq.
    assert (Hinj : Inj eq eq (fun ws => ws + windowSizeMs)) by (intros ? ? ?; lia).
    apply (NoDup_fmap_2 _), NoDup_closing.
  - exact Hf1.
Qed.

Lemma empty_key_invariant :
  key_invariant windowSizeMs allowedLateness (empty_key (D:=D)).
Proof. split; simpl; intros; try discriminate; try exact I. Qed.

Lemma init_invariant : invariant windowSizeMs allowedLateness (init (D:=D)).
Proof.
  split; simpl.
  - intros k ks Hk. rewrite lookup_empty in Hk. discriminate.
  - intros r Hr. inversion Hr.
  - constructor.
Qed.

Lemma ingest_invariant (st : Engine) (tr : TradeRow) :
  invariant windowSizeMs allowedLateness st ->
  invariant windowSizeMs allowedLateness (ingest windowSizeMs allowedLateness st tr).
Proof using size_positive.
  intros [Hkeys Hem Hnd]. unfold ingest. cbv zeta.
  set (k := (exchange tr, symbol tr)).
  set (ks := default empty_key (keys st !! k)).
  assert (Hks : key_invariant windowSizeMs allowedLateness ks).
  { subst ks. destruct (keys st !! k) as [ks0|] eqn:Ek; simpl; [eauto|].
    apply empty_key_invariant. }
  destruct (ingest_key_invariant k tr ks Hks) as (Hinv & Hout & Hnew & Hmono).
  set (r := ingest_key windowSizeMs allowedLateness k tr ks) in *.
  split; cbn [keys emitted].
  - intros k' ks'. rewrite lookup_insert. case_decide; [now intros [= <-]|eauto].
  - intros x [Hx | Hx]%elem_of_app.
    + destruct (Hem x Hx) as (ks0 & b & Hk0 & Hb & Hle).
      destruct (decide ((w_exchange x, w_symbol x) = k)) as [Ek | Ek].
      * rewrite Ek in *. subst ks. rewrite Hk0 in *. simpl in *.
        destruct (Hmono b Hb) as (b' & Hb' & Hbb').
        exists r.1.1, b'. rewrite lookup_insert_eq. repeat split; [exact Hb'|lia].
      * exists ks0, b. rewrite lookup_insert_ne by congruence. auto.
    + destruct (Hout x Hx) as (He & Hs & _ & b' & Hb' & Hle).
      exists r.1.1, b'. rewrite He, Hs. replace (k.1, k.2) with k by now destruct k.
      rewrite lookup_insert_eq. auto.
  - rewrite fmap_app. apply NoDup_app. split; [exact Hnd|split].
    + intros wk (x & -> & Hx)%list_elem_of_fmap (y & Ey & Hy)%list_elem_of_fmap.
      destruct (Hem x Hx) as (ks0 & b & Hk0 & Hb & Hle).
      destruct (Hout y Hy) as (He & Hs & Hlt & _).
      unfold WindowKey in Ey. injection Ey as Ee Es Ew.
      assert (Ek : (w_exchange x, w_symbol x) = k)
        by (rewrite Ee, Es, He, Hs; now destruct k).
      rewrite Ek in Hk0. subst ks. rewrite Hk0 in Hlt. simpl in Hlt.
      specialize (Hlt b Hb). lia.
    + assert (Heq : WindowKey windowSizeMs <$> r.1.2
                    = (fun e => (k.1, k.2, e - windowSizeMs)) <$> (window_end <$> r.1.2)).
      { rewrite <- list_fmap_compose. apply Forall_fmap_ext_1, Forall_forall.
        intros x Hx.
        destruct (Hout x Hx) as (He & Hs & _). unfold WindowKey. simpl. now rewrite He, Hs. }
      rewrite Heq.
      assert (Hinj : Inj eq eq (fun e => (k.1, k.2, e - windowSizeMs)))
        by (intros ? ? [=]; lia).
      apply (NoDup_fmap_2 _). exact Hnew.
Qed.

Lemma fold_ingest_invariant (trades : list TradeRow) : forall st,
  invariant windowSizeMs allowedLateness st ->
  invariant windowSizeMs allowedLateness
    (fold_left (ingest windowSizeMs allowedLateness) trades st).
Proof using size_positive.
  induction trades as [|tr trades IH]; intros st Hst; simpl; [exact Hst|].
  apply IH, ingest_invariant, Hst.
Qed.

Lemma run_invariant (trades : list TradeRow) :
  invariant windowSizeMs allowedLateness (run (D:=D) windowSizeMs allowedLateness trades).
Proof using size_positive. apply fold_ingest_invariant, init_invariant. Qed.

(** What has been emitted stays as it is: later trades only append. *)
Lemma fold_ingest_emitted (more : list TradeRow) : forall st : Engine (D:=D),
  exists new,
    emitted (fold_left (ingest windowSizeMs allowedLateness) more st) = emitted st ++ new.
Proof.
  induction more as [|tr more IH]; intros st; simpl.
  - exists []. now rewrite app_nil_r.
  - destruct (IH (ingest windowSizeMs allowedLateness st tr)) as [new ->].
    unfold ingest at 1. cbn [emitted]. rewrite <- app_assoc. eauto.
Qed.

Hypothesis lateness_nonnegative : 0 <= allowedLateness.

(** A trade of a window that is closed changes nothing but the counter. *)
Lemma ingest_late (st : Engine) (tr : TradeRow) (ks : KeyState) :
  invariant windowSizeMs allowedLateness st ->
  keys st !! (exchange tr, symbol tr) = Some ks ->
  late windowSizeMs ks (ts tr) = true ->
  ingest windowSizeMs allowedLateness st tr =
    {| keys := keys st; emitted := emitted st; lateDropped := S (lateDropped st) |}
  /\ exists wm, watermark allowedLateness st (exchange tr, symbol tr) = Some wm
                /\ ts tr < wm.
Proof using size_positive lateness_nonnegative.
  intros [Hkeys _ _] Hk Hlate.
  destruct (Hkeys _ _ Hk) as [Hal Hnc Haw Hba Hbw].
  unfold late in Hlate. destruct (closedBoundary ks) as [b|] eqn:Eb; [|discriminate].
  apply Z.ltb_lt in Hlate.
  destruct (Hbw b eq_refl) as (m & Em & Hbm).
  pose proof (aligned_lt _ _ (windowStart_aligned (ts tr)) (Hba b eq_refl) Hlate) as Hend.
  assert (Ht : ts tr < windowStart windowSizeMs (ts tr) + windowSizeMs).
  { unfold windowStart. Z.div_mod_to_equations. nia. }
  split.
  - unfold ingest. cbv zeta. rewrite Hk.
    change (default empty_key (Some ks)) with ks.
    unfold ingest_key. cbv zeta. cbn [fst snd].
    unfold late. rewrite Eb, Em.
    replace (windowStart windowSizeMs (ts tr) <? b) with true
      by (symmetry; now apply Z.ltb_lt).
    replace (Z.max m (ts tr)) with m by lia.
    assert (Hnone : closing windowSizeMs (m - allowedLateness) (accumulators ks) = []).
    { apply elem_of_nil_inv. intros w [Hw Hc]%elem_of_closing.
      specialize (Haw _ _ m Hw Em). lia. }
    rewrite Hnone. simpl.
    rewrite map_filter_id.
    + rewrite app_nil_r, insert_id; [reflexivity|].
      rewrite Hk. f_equal. destruct ks; simpl in *. now subst.
    + intros ws a Hw. unfold closes. simpl. specialize (Haw _ _ m Hw Em). lia.
  - exists (m - allowedLateness). unfold watermark. rewrite Hk. simpl. rewrite Em. simpl.
    split; [reflexivity|lia].
Qed.

(** C2: over a whole run no two emitted WindowResults have the same
    (exchange, symbol, windowStart), and whatever arrives after a window
    was emitted, late or duplicate trades included, only appends
    WindowResults of other WindowKeys. *)
Theorem emitted_at_most_once (trades more : list TradeRow) :
  NoDup (WindowKey windowSizeMs <$> emitted (run (D:=D) windowSizeMs allowedLateness trades))
  /\ exists new,
       emitted (run windowSizeMs allowedLateness (trades ++ more)) =
         emitted (run windowSizeMs allowedLateness trades) ++ new
       /\ forall r, r ∈ new ->
            WindowKey windowSizeMs r ∉
              WindowKey windowSizeMs <$> emitted (run windowSizeMs allowedLateness trades).
Proof using size_positive.
  split; [apply run_invariant|].
  pose proof (emitted_once _ _ _ (run_invariant (trades ++ more))) as Hnd.
  unfold run in *. rewrite fold_left_app in *.
  destruct (fold_ingest_emitted more
              (fold_left (ingest windowSizeMs allowedLateness) trades init)) as [new Hnew].
  exists new. split; [exact Hnew|].
  rewrite Hnew, fmap_app in Hnd. apply NoDup_app in Hnd as (_ & Hdisj & _).
  intros r Hr Hold. apply (Hdisj _ Hold). now apply list_elem_of_fmap_2.
Qed.

(** C4, amended: a trade is dropped exactly when its window is closed for
    its key ([windowStart] is before the key's closed boundary). Such a
    trade is behind the key's watermark, and it changes nothing but the
    late-dropped counter: no accumulator and no WindowResult. No trade,
    dropped or not, changes a WindowResult that has been emitted. *)
Theorem late_trade_dropped (trades : list TradeRow) (tr : TradeRow) :
  let st := run (D:=D) windowSizeMs allowedLateness trades in
  let k := (exchange tr, symbol tr) in
  (forall ks, keys st !! k = Some ks -> late windowSizeMs ks (ts tr) = true ->
     ingest windowSizeMs allowedLateness st tr =
       {| keys := keys st; emitted := emitted st; lateDropped := S (lateDropped st) |}
     /\ exists wm, watermark allowedLateness st k = Some wm /\ ts tr < wm)
  /\ (lateDropped (ingest windowSizeMs allowedLateness st tr) = lateDropped st <->
      late windowSizeMs (default empty_key (keys st !! k)) (ts tr) = false)
  /\ (forall more, exists new,
        emitted (run windowSizeMs allowedLateness (trades ++ more)) = emitted st ++ new).
Proof using size_positive lateness_nonnegative.
  cbv zeta. split; [|split].
  - intros ks Hk Hlate. apply (ingest_late _ _ ks); auto. apply run_invariant.
  - unfold ingest, ingest_key. cbv zeta. cbn [lateDropped fst snd].
    destruct (late windowSizeMs _ (ts tr)); split; intros; try reflexivity;
      try discriminate; lia.
  - intros more. unfold run. rewrite fold_left_app. apply fold_ingest_emitted.
Qed.

End Engine.

(** The run of scenario C emits each of its windows once. *)
Lemma emitted_at_most_once_witness :
  0 < 10000
  /\ NoDup (WindowKey 10000 <$>
             emitted (run (H:=binary64 (fun _ => "")) 10000 5000 scenario_C)).
Proof.
  split; [lia|].
  exact (proj1 (emitted_at_most_once (H:=binary64 (fun _ => "")) 10000 5000
                  ltac:(lia) scenario_C [])).
Defined.

(** C4, as stated, fails: after a trade at 21 s the watermark of the key
    is 16 s; a trade at 10 s, 6 s behind it, is not dropped, and when a
    trade at 25 s closes the window [[10 s, 20 s)] its quantity is the
    volume of the WindowResult. *)
Lemma behind_watermark_counterexample :
  watermark 5000 (run (H:=binary64 (fun _ => "")) 10000 5000 (take 1 out_of_order))
    ("binance", "BTCUSDT") = Some 16000
  /\ ts (btc_trade 10000 "2" "0.7") < 16000 - 5000
  /\ lateDropped (run (H:=binary64 (fun _ => "")) 10000 5000 out_of_order) = 0%nat
  /\ exists w, emitted (run (H:=binary64 (fun _ => "")) 10000 5000 out_of_order) = [w]
               /\ window_end w = 20000
               /\ volume w = float_of_decimal "0.7".
Proof.
  split; [vm_compute; reflexivity|]. split; [vm_compute; reflexivity|].
  split; [vm_compute; reflexivity|].
  eexists. split; [vm_compute; reflexivity|]. split; vm_compute; reflexivity.
Qed.

(** Scenario C: the trade at 9 s arrives when its window is closed. *)
Lemma late_trade_dropped_witness :
  (0 < 10000 /\ 0 <= 5000)
  /\ (let st := run (H:=binary64 (fun _ => "")) 10000 5000 scenario_C_closing in
      (exists ks, keys st !! ("binance", "BTCUSDT") = Some ks
                  /\ late 10000 ks (ts scenario_C_late) = true)
      /\ ingest (H:=binary64 (fun _ => "")) 10000 5000 st scenario_C_late =
           {| keys := keys st; emitted := emitted st; lateDropped := S (lateDropped st) |}).
Proof.
  split; [lia|]. cbv zeta.
  assert (Hks : exists ks,
             keys (run (H:=binary64 (fun _ => "")) 10000 5000 scenario_C_closing)
               !! ("binance", "BTCUSDT") = Some ks
             /\ late 10000 ks (ts scenario_C_late) = true).
  { eexists. split; [vm_compute; reflexivity|]. vm_compute. reflexivity. }
  split; [exact Hks|]. destruct Hks as (ks & Hk & Hlate).
  exact (proj1 (proj1 (late_trade_dropped (H:=binary64 (fun _ => "")) 10000 5000
                         ltac:(lia) ltac:(lia) scenario_C_closing scenario_C_late)
                  ks Hk Hlate)).
Defined.

End WindowingEngineProofs.

(** * Properties of the start-up helpers *)

Module SetupProofs.
Import Py Producer Setup.

Ltac by_cases_on_ascii c :=
  destruct c as [[] [] [] [] [] [] [] []]; reflexivity.

Lemma upper_ascii_idem c : upper_ascii (upper_ascii c) = upper_ascii c.
Proof. by_cases_on_ascii c. Qed.

Lemma is_whitespace_upper c : is_whitespace (upper_ascii c) = is_whitespace c.
Proof. by_cases_on_ascii c. Qed.

Lemma comma_upper c : Ascii.eqb (upper_ascii c) "," = Ascii.eqb c ",".
Proof. by_cases_on_ascii c. Qed.

Lemma upper_idem s : upper (upper s) = upper s.
Proof. induction s as [|c s IH]; simpl; [|rewrite upper_ascii_idem, IH]; reflexivity. Qed.

Lemma upper_empty s : String.eqb (upper s) "" = String.eqb s "".
Proof. destruct s; reflexivity. Qed.

Lemma has_comma_upper s : has_char "," (upper s) = has_char "," s.
Proof. induction s as [|c s IH]; simpl; [|rewrite comma_upper, IH]; reflexivity. Qed.

Lemma lstrip_upper s : lstrip (upper s) = upper (lstrip s).
Proof.
  induction s as [|c s IH]; simpl; [reflexivity|].
  rewrite is_whitespace_upper. destruct (is_whitespace c); [exact IH|reflexivity].
Qed.

Lemma rstrip_upper s : rstrip (upper s) = upper (rstrip s).
Proof.
  induction s as [|c s IH]; simpl; [reflexivity|].
  rewrite is_whitespace_upper, IH, upper_empty.
  destruct (is_whitespace c && String.eqb (rstrip s) ""); reflexivity.
Qed.

Lemma strip_upper s : strip (upper s) = upper (strip s).
Proof. unfold strip. now rewrite rstrip_upper, lstrip_upper. Qed.

Lemma lstrip_idem s : lstrip (lstrip s) = lstrip s.
Proof.
  induction s as [|c s IH]; simpl; [reflexivity|].
  destruct (is_whitespace c) eqn:E; [exact IH|]. simpl. now rewrite E.
Qed.

Lemma rstrip_idem s : rstrip (rstrip s) = rstrip s.
Proof.
  induction s as [|c s IH]; simpl; [reflexivity|].
  destruct (is_whitespace c && String.eqb (rstrip s) "") eqn:E; [reflexivity|].
  simpl. now rewrite IH, E.
Qed.

(** Stripping on the left keeps a string stripped on the right. *)
Lemma rstrip_lstrip s : rstrip s = s -> rstrip (lstrip s) = lstrip s.
Proof.
  induction s as [|c s IH]; simpl; [reflexivity|].
  destruct (is_whitespace c) eqn:E; simpl.
  - destruct (String.eqb (rstrip s) ""); [discriminate|].
    intros [= H]. auto.
  - rewrite E. simpl. auto.
Qed.

Lemma strip_idem s : strip (strip s) = strip s.
Proof.
  unfold strip. rewrite (rstrip_lstrip (rstrip s)) by apply rstrip_idem.
  apply lstrip_idem.
Qed.

(** The pieces of a split hold no separator, and there is at least one. *)
Lemma split_not_nil sep s : split sep s <> [].
Proof.
  destruct s as [|c s]; simpl; [discriminate|].
  destruct (Ascii.eqb c sep); [discriminate|]. destruct (split sep s); discriminate.
Qed.

Lemma split_has_char sep s : Forall (fun x => has_char sep x = false) (split sep s).
Proof.
  induction s as [|c s IH]; simpl.
  - repeat constructor.
  - destruct (Ascii.eqb c sep) eqn:E.
    + constructor; [reflexivity|exact IH].
    + destruct (split sep s) as [|x l]; [repeat constructor; simpl; now rewrite E|].
      inversion IH; subst. constructor; [simpl; now rewrite E|assumption].
Qed.

(** Splitting undoes joining, for pieces without the separator. *)
Lemma split_piece sep x : has_char sep x = false -> split sep x = [x].
Proof.
  induction x as [|c x IH]; simpl; [reflexivity|].
  intros H. apply orb_false_iff in H as [Hc Hx]. rewrite Hc, (IH Hx). reflexivity.
Qed.

Lemma split_append sep x rest :
  has_char sep x = false ->
  split sep (x +:+ String sep rest) = x :: split sep rest.
Proof.
  induction x as [|c x IH]; simpl.
  - intros _. now rewrite Ascii.eqb_refl.
  - intros H. apply orb_false_iff in H as [Hc Hx]. rewrite Hc.
    change (String.app x (String sep rest)) with (x +:+ String sep rest).
    rewrite (IH Hx). reflexivity.
Qed.

Lemma split_join sep l :
  l <> [] -> Forall (fun x => has_char sep x = false) l ->
  split sep (join (String sep "") l) = l.
Proof.
  intros Hl Hall. induction Hall as [|x l Hx Hall IH]; [congruence|].
  destruct l as [|y l]; [simpl; now apply split_piece|].
  change (join (String sep "") (x :: y :: l))
    with (x +:+ String sep "" +:+ join (String sep "") (y :: l)).
  change (String sep "" +:+ join (String sep "") (y :: l))
    with (String sep (join (String sep "") (y :: l))).
  rewrite split_append by assumption. rewrite IH by discriminate. reflexivity.
Qed.

Lemma clean_DEFAULT_SYMBOLS : Forall clean DEFAULT_SYMBOLS.
Proof. repeat constructor; try discriminate. Qed.

Lemma has_char_lstrip c s : has_char c s = false -> has_char c (lstrip s) = false.
Proof.
  induction s as [|c' s IH]; simpl; [reflexivity|].
  intros H. destruct (is_whitespace c'); [|exact H].
  apply orb_false_iff in H as [_ H]. auto.
Qed.

Lemma has_char_rstrip c s : has_char c s = false -> has_char c (rstrip s) = false.
Proof.
  induction s as [|c' s IH]; simpl; [reflexivity|].
  intros H. apply orb_false_iff in H as [Hc H].
  destruct (is_whitespace c' && String.eqb (rstrip s) ""); [reflexivity|].
  simpl. rewrite Hc. auto.
Qed.

Lemma clean_piece s :
  has_char "," s = false -> String.eqb (strip s) "" = false -> clean (upper (strip s)).
Proof.
  intros Hc He. unfold clean. repeat split.
  - intros H. rewrite <- upper_empty in He. rewrite H in He. discriminate.
  - rewrite has_comma_upper. unfold strip. now apply has_char_lstrip, has_char_rstrip.
  - now rewrite strip_upper, strip_idem.
  - apply upper_idem.
Qed.

(** The symbols kept from a list of pieces. *)
Lemma kept_clean pieces :
  Forall (fun x => has_char "," x = false) pieces ->
  Forall clean
    (map (fun s => upper (strip s))
         (List.filter (fun s => negb (String.eqb (strip s) "")) pieces)).
Proof.
  induction 1 as [|x l Hx Hall IH]; simpl; [constructor|].
  destruct (String.eqb (strip x) "") eqn:E; simpl; [exact IH|].
  constructor; [now apply clean_piece|exact IH].
Qed.

Lemma kept_blank pieces :
  Forall (fun s => strip s = "") pieces ->
  map (fun s => upper (strip s))
      (List.filter (fun s => negb (String.eqb (strip s) "")) pieces) = [].
Proof.
  induction 1 as [|x l Hx Hall IH]; simpl; [reflexivity|]. now rewrite Hx.
Qed.

Lemma kept_all l :
  Forall clean l ->
  map (fun s => upper (strip s))
      (List.filter (fun s => negb (String.eqb (strip s) "")) l) = l.
Proof.
  induction 1 as [|x l (Hne & _ & Hs & Hu) Hall IH]; simpl; [reflexivity|].
  rewrite Hs. destruct (String.eqb x "") eqn:E; [apply String.eqb_eq in E; contradiction|].
  simpl. now rewrite Hs, Hu, IH.
Qed.

(** The list of symbols is never empty and every symbol in it is clean,
    whatever the text: not empty, without a comma, without white space at
    either end, in upper case. A text whose pieces between the commas are
    all blank, the empty text among them, gives the default symbols. *)
Theorem parse_symbols_clean (raw : string) :
  parse_symbols raw <> []
  /\ Forall clean (parse_symbols raw)
  /\ (Forall (fun s => strip s = "") (split "," raw) ->
      parse_symbols raw = DEFAULT_SYMBOLS)
  /\ parse_symbols "" = DEFAULT_SYMBOLS.
Proof.
  unfold parse_symbols.
  pose proof (kept_clean (split "," raw) (split_has_char "," raw)) as Hc.
  repeat split.
  - destruct (map _ _); discriminate.
  - destruct (map _ _); [apply clean_DEFAULT_SYMBOLS|exact Hc].
  - intros Hb. now rewrite (kept_blank _ Hb).
Qed.

(** Joining clean symbols of ASCII text with commas and parsing the text
    gives the symbols back. *)
Theorem parse_symbols_round_trip (l : list string) :
  l <> [] -> Forall clean l -> Forall (fun s => is_ascii s = true) l ->
  parse_symbols (join "," l) = l.
Proof.
  intros Hl Hc _. unfold parse_symbols.
  rewrite (split_join "," l Hl).
  - rewrite (kept_all l Hc). destruct l; [contradiction|reflexivity].
  - eapply Forall_impl; [exact Hc|]. intros x (_ & H & _). exact H.
Qed.

Lemma parse_symbols_round_trip_witness :
  parse_symbols (join "," ["BTCUSDT"; "SOLUSDT"]) = ["BTCUSDT"; "SOLUSDT"].
Proof.
  apply parse_symbols_round_trip; [discriminate| |].
  - repeat constructor; discriminate.
  - repeat constructor.
Defined.

Lemma split_upper s : split "," (upper s) = map upper (split "," s).
Proof.
  induction s as [|c s IH]; simpl; [reflexivity|].
  rewrite comma_upper, IH. destruct (Ascii.eqb c ","); [reflexivity|].
  destruct (split "," s); reflexivity.
Qed.

Lemma kept_upper pieces :
  map (fun s => upper (strip s))
      (List.filter (fun s => negb (String.eqb (strip s) "")) (map upper pieces))
  = map (fun s => upper (strip s))
        (List.filter (fun s => negb (String.eqb (strip s) "")) pieces).
Proof.
  induction pieces as [|x l IH]; simpl; [reflexivity|].
  rewrite strip_upper, upper_empty.
  destruct (String.eqb (strip x) ""); simpl; [exact IH|].
  now rewrite strip_upper, upper_idem, IH.
Qed.

Lemma parse_symbols_upper raw : parse_symbols (upper raw) = parse_symbols raw.
Proof. unfold parse_symbols. now rewrite split_upper, kept_upper. Qed.

(** Two texts that differ only in the case of their letters give the same
    symbols. *)
Theorem parse_symbols_case_insensitive (raw raw' : string) :
  upper raw = upper raw' -> parse_symbols raw = parse_symbols raw'.
Proof.
  intros H. rewrite <- (parse_symbols_upper raw), <- (parse_symbols_upper raw').
  now rewrite H.
Qed.

Lemma parse_symbols_case_insensitive_witness :
  parse_symbols "btcusdt, EthUsdt" = parse_symbols "BtcUsdt, ETHUSDT".
Proof. apply parse_symbols_case_insensitive. reflexivity. Defined.

Lemma lower_upper s : lower (upper s) = lower s.
Proof.
  induction s as [|c s IH]; simpl; [reflexivity|]. rewrite IH. f_equal.
  by_cases_on_ascii c.
Qed.

Lemma streams_upper symbols :
  map (fun symbol => lower symbol +:+ "@trade") (map upper symbols)
  = map (fun symbol => lower symbol +:+ "@trade") symbols.
Proof.
  induction symbols as [|x l IH]; simpl; [reflexivity|]. now rewrite lower_upper, IH.
Qed.

(** The stream URL: an override that is not empty is taken as it is,
    whatever the symbols; an empty override counts as none; and for
    symbols of ASCII text the URL does not depend on their case, so that the symbols [parse_symbols] puts in
    upper case subscribe to the streams of the text as it was typed. *)
Theorem build_stream_url_override (override : option string) (symbols : list string) :
  (forall url, url <> "" -> build_stream_url (Some url) symbols = url)
  /\ build_stream_url (Some "") symbols = build_stream_url None symbols
  /\ (Forall (fun s => is_ascii s = true) symbols ->
      build_stream_url override (map upper symbols) = build_stream_url override symbols).
Proof.
  split; [|split].
  - intros url Hu. unfold build_stream_url.
    destruct (String.eqb url "") eqn:E; [apply String.eqb_eq in E; contradiction|reflexivity].
  - reflexivity.
  - intros _. unfold build_stream_url. rewrite streams_upper. reflexivity.
Qed.

(** The Kafka settings: the servers, the client id and the idempotence
    flag are what the caller and the code say, whatever the environment
    holds. The four SASL settings are set together or not at all: they are
    set exactly when the environment gives both a user name and a password
    that are not empty, so that a user name without password (or an empty
    one) is ignored, and so is a security protocol given without
    credentials. *)
Theorem build_kafka_conf_sasl (env : gmap string string) (bootstrap client_id : string) :
  let conf := build_kafka_conf env bootstrap client_id in
  let username := default "" (env !! "KAFKA_USERNAME") in
  let password := default "" (env !! "KAFKA_PASSWORD") in
  conf !! "bootstrap.servers" = Some bootstrap
  /\ conf !! "client.id" = Some client_id
  /\ conf !! "enable.idempotence" = Some "true"
  /\ (username <> "" /\ password <> "" ->
      conf !! "sasl.username" = Some username
      /\ conf !! "sasl.password" = Some password
      /\ conf !! "security.protocol"
           = Some (default "SASL_SSL" (env !! "KAFKA_SECURITY_PROTOCOL"))
      /\ conf !! "sasl.mechanism"
           = Some (default "PLAIN" (env !! "KAFKA_SASL_MECHANISM"))
      /\ size conf = 9%nat)
  /\ (username = "" \/ password = "" ->
      conf !! "sasl.username" = None
      /\ conf !! "sasl.password" = None
      /\ conf !! "security.protocol" = None
      /\ conf !! "sasl.mechanism" = None
      /\ size conf = 5%nat).
Proof.
  intros conf username password. subst conf. unfold build_kafka_conf.
  fold username password.
  destruct (String.eqb username "") eqn:Eu; [apply String.eqb_eq in Eu|apply String.eqb_neq in Eu];
    (destruct (String.eqb password "") eqn:Ep;
       [apply String.eqb_eq in Ep|apply String.eqb_neq in Ep]);
    cbn [negb andb];
    (split; [vm_compute; reflexivity|]);
    (split; [vm_compute; reflexivity|]);
    (split; [vm_compute; reflexivity|]);
    (split; [intros [? ?]; try contradiction|intros [?|?]; try contradiction]);
    repeat split; vm_compute; reflexivity.
Qed.

End SetupProofs.

(** * Properties of whole runs of the producer *)

Module RunProofs.
Import Py Producer Setup.

Lemma produced_app (t1 t2 : list effect) : produced (t1 ++ t2) = produced t1 ++ produced t2.
Proof. unfold produced. apply omap_app. Qed.

Lemma flushes_app (t1 t2 : list effect) : flushes (t1 ++ t2) = (flushes t1 + flushes t2)%nat.
Proof. unfold flushes. now rewrite List.filter_app, length_app. Qed.

Lemma closes_app (t1 t2 : list effect) : closes (t1 ++ t2) = (closes t1 + closes t2)%nat.
Proof. unfold closes. now rewrite List.filter_app, length_app. Qed.

Section Run.

Variable json_loads : string -> option pyval.
Variable repr : pyval -> string.

(** One turn of the loop of [start]. *)
Lemma start_step events sessions p :
  stop_event p = false ->
  exists p1 t1,
    run_forever json_loads repr events (set_ws_app (stream_url p) p) = Ok (p1, t1)
    /\ stop_event p1 = signalled events
    /\ (signalled events = true ->
        start json_loads repr (events :: sessions) p =
          Ok (p1, WsConnect (stream_url p) :: t1 ++ [Log INFO "Producer loop exited" []]))
    /\ (signalled events = false ->
        forall p' t',
          start json_loads repr sessions
            (set_backoff (Z.min (_backoff_seconds p1 * 2) 60) p1) = Ok (p', t') ->
          start json_loads repr (events :: sessions) p =
            Ok (p', WsConnect (stream_url p) :: t1
                      ++ [Log WARNING "WebSocket disconnected, retrying in %s seconds"
                            [pretty (_backoff_seconds p1)];
                          Sleep (_backoff_seconds p1)] ++ t')).
Proof.
  intros Hstop.
  destruct (ProducerProofs.run_forever_returns json_loads repr events
              (set_ws_app (stream_url p) p)) as (p1 & t1 & E1).
  destruct (ProducerProofs.run_forever_fields _ _ _ _ _ _ E1) as (S1 & _).
  simpl in S1. rewrite Hstop in S1. simpl in S1.
  exists p1, t1. repeat split; auto.
  - intros Hsig. simpl. rewrite Hstop, E1. simpl. rewrite S1, Hsig. reflexivity.
  - intros Hsig p' t' E'. simpl. rewrite Hstop, E1. simpl. rewrite S1, Hsig, E'. reflexivity.
Qed.

Lemma start_stopped sessions p :
  stop_event p = true ->
  start json_loads repr sessions p = Ok (p, [Log INFO "Producer loop exited" []]).
Proof. intros H. destruct sessions; simpl; now rewrite H. Qed.

(** *** The delays *)

Lemma start_sleeps_bounded sessions : forall p,
  1 <= _backoff_seconds p <= 60 ->
  exists p' t,
    start json_loads repr sessions p = Ok (p', t)
    /\ Forall (fun d => 1 <= d <= 60) (sleeps t)
    /\ 1 <= _backoff_seconds p' <= 60
    /\ (length (sleeps t) <= length sessions)%nat.
Proof.
  induction sessions as [|events sessions IH]; intros p Hb.
  - exists p. destruct (stop_event p) eqn:Hstop.
    + rewrite start_stopped by assumption. eexists. split; [reflexivity|].
      simpl. auto.
    + simpl. rewrite Hstop. eexists. split; [reflexivity|]. simpl. auto.
  - destruct (stop_event p) eqn:Hstop.
    { rewrite start_stopped by assumption. exists p. eexists. split; [reflexivity|].
      simpl. split; [constructor|split; [exact Hb|lia]]. }
    destruct (start_step events sessions p Hstop) as (p1 & t1 & E1 & S1 & Hsig & Hnosig).
    destruct (ProducerProofs.run_forever_fields _ _ _ _ _ _ E1) as (_ & B1 & _ & T1).
    simpl in B1.
    assert (Hb1 : 1 <= _backoff_seconds p1 <= 60)
      by (rewrite B1; destruct (opened events); lia).
    destruct (signalled events) eqn:Es.
    + rewrite (Hsig eq_refl). exists p1. eexists. split; [reflexivity|].
      change (WsConnect (stream_url p) :: ?l) with ([WsConnect (stream_url p)] ++ l).
      rewrite !ProducerProofs.sleeps_app, T1. simpl.
      split; [constructor|split; [exact Hb1|lia]].
    + destruct (IH (set_backoff (Z.min (_backoff_seconds p1 * 2) 60) p1))
        as (p' & t' & E' & Hall & Hb' & Hlen); [simpl; lia|].
      rewrite (Hnosig eq_refl _ _ E'). exists p'. eexists. split; [reflexivity|].
      change (WsConnect (stream_url p) :: ?l) with ([WsConnect (stream_url p)] ++ l).
      rewrite !ProducerProofs.sleeps_app, T1. simpl.
      split; [constructor; [exact Hb1|exact Hall]|split; [exact Hb'|lia]].
Qed.

(** *** What a run does to the Kafka client and to the socket *)

(** A message leaves one record, the one it stands for, or none; it
    neither flushes nor closes, and it logs no socket error. *)
Lemma on_message_effects env message p t :
  _on_message json_loads repr env message p = Ok t ->
  produced t = map (fun r => (topic p, symbol r, r))
                   (omap (record_of json_loads repr) [(env, message)])
  /\ flushes t = 0%nat /\ closes t = 0%nat
  /\ Forall (fun e => is_socket_error e = false) t.
Proof.
  unfold _on_message, record_of. simpl.
  destruct (json_loads message) as [payload|] eqn:Hj.
  - simpl. destruct (trade_message payload) as [trade|] eqn:Ht.
    + rewrite (ProducerProofs.on_message_try_trade json_loads repr env message p
                 payload trade Hj Ht). simpl.
      destruct (_format_trade repr (now_ms env) trade) as [r|e] eqn:Hf; simpl.
      * destruct (produce_raises env) as [f|]; simpl.
        -- destruct f; simpl; intros [= <-]; repeat split; repeat constructor.
        -- intros [= <-]. repeat split; repeat constructor.
      * destruct (is_JSONDecodeError e); [intros [= <-]; repeat split; repeat constructor|].
        destruct (is_Exception e); [intros [= <-]; repeat split; repeat constructor|].
        discriminate.
    + destruct (ProducerProofs.on_message_try_other json_loads repr env message p
                  payload Hj Ht) as [-> | ->]; simpl;
        intros [= <-]; repeat split; repeat constructor.
  - unfold _on_message_try. rewrite Hj. simpl.
    intros [= <-]. repeat split; repeat constructor.
Qed.

Lemma dispatch_effects ev p p' t :
  dispatch json_loads repr ev p = Ok (p', t) ->
  topic p' = topic p
  /\ ws_app p' = ws_app p
  /\ produced t = map (fun r => (topic p, symbol r, r))
                      (omap (record_of json_loads repr) (session_messages [ev]))
  /\ flushes t = (if stop_event p then 0 else if stop_event p' then 1 else 0)%nat
  /\ closes t = (match ws_app p with Some _ => flushes t | None => 0 end)%nat
  /\ (stop_event p = true -> Forall (fun e => is_socket_error e = false) t).
Proof.
  destruct ev; simpl.
  - intros [= <- <-]. simpl. destruct (stop_event p), (ws_app p); repeat split; repeat constructor.
  - destruct (_on_message json_loads repr env message p) as [t'|e] eqn:E; [|discriminate].
    simpl. intros [= <- <-].
    destruct (on_message_effects _ _ _ _ E) as (P & F & C & S).
    rewrite F, C. split; [reflexivity|]. split; [reflexivity|]. split; [exact P|].
    destruct (stop_event p), (ws_app p); auto.
  - intros [= <- <-]. unfold _on_error.
    destruct (stop_event p), (ws_app p); repeat split; repeat constructor; discriminate.
  - intros [= <- <-]. destruct (stop_event p), (ws_app p); repeat split; repeat constructor.
  - unfold stop. destruct (stop_event p) eqn:Hs; intros [= <- <-]; simpl.
    + destruct (ws_app p); repeat split; repeat constructor.
    + destruct (ws_app p); repeat split; repeat constructor; discriminate.
Qed.

Lemma run_forever_effects events : forall p p' t,
  run_forever json_loads repr events p = Ok (p', t) ->
  topic p' = topic p
  /\ ws_app p' = ws_app p
  /\ produced t = map (fun r => (topic p, symbol r, r))
                      (omap (record_of json_loads repr) (session_messages events))
  /\ flushes t = (if stop_event p then 0 else if stop_event p' then 1 else 0)%nat
  /\ closes t = (match ws_app p with Some _ => flushes t | None => 0 end)%nat
  /\ (stop_event p = true -> Forall (fun e => is_socket_error e = false) t).
Proof.
  induction events as [|ev events IH]; intros p p' t E.
  - injection E as <- <-. simpl.
    destruct (stop_event p), (ws_app p); repeat split; repeat constructor.
  - simpl in E. apply ProducerProofs.bind_Ok in E as ([p1 t1] & E1 & E).
    apply ProducerProofs.bind_Ok in E as ([p2 t2] & E2 & E). simpl in E2, E.
    injection E as <- <-.
    destruct (dispatch_effects _ _ _ _ E1) as (T1 & W1 & P1 & F1 & C1 & S1).
    destruct (IH _ _ _ E2) as (T2 & W2 & P2 & F2 & C2 & S2).
    destruct (ProducerProofs.dispatch_fields _ _ _ _ _ _ E1) as (M1 & _).
    destruct (ProducerProofs.run_forever_fields _ _ _ _ _ _ E2) as (M2 & _).
    split; [congruence|]. split; [congruence|]. split; [|split; [|split]].
    + rewrite produced_app, P1, P2, T1.
      change (ev :: events) with ([ev] ++ events).
      unfold session_messages. now rewrite omap_app, omap_app, map_app.
    + rewrite flushes_app, F1, F2, M2, M1.
      destruct (stop_event p), ev, (signalled events); reflexivity.
    + rewrite closes_app, flushes_app, C1, C2, W1. destruct (ws_app p); reflexivity.
    + intros Hs. apply Forall_app. split; [auto|].
      apply S2. rewrite M1, Hs. reflexivity.
Qed.

Lemma start_effects sessions : forall p,
  stop_event p = false ->
  exists p' t,
    start json_loads repr sessions p = Ok (p', t)
    /\ topic p' = topic p
    /\ stop_event p' = existsb signalled sessions
    /\ produced t = map (fun r => (topic p, symbol r, r))
                        (omap (record_of json_loads repr) (messages (served sessions)))
    /\ flushes t = (if stop_event p' then 1 else 0)%nat
    /\ closes t = flushes t.
Proof.
  induction sessions as [|events sessions IH]; intros p Hstop.
  - simpl. rewrite Hstop. exists p, []. rewrite Hstop. repeat split.
  - destruct (start_step events sessions p Hstop) as (p1 & t1 & E1 & S1 & Hsig & Hnosig).
    destruct (run_forever_effects _ _ _ _ E1) as (T1 & _ & P1 & F1 & C1 & _).
    simpl in T1, P1, F1, C1.
    destruct (signalled events) eqn:Es.
    + rewrite (Hsig eq_refl). exists p1. eexists. split; [reflexivity|].
      change (WsConnect (stream_url p) :: ?l) with ([WsConnect (stream_url p)] ++ l).
      rewrite !produced_app, !flushes_app, !closes_app, P1, F1, C1, F1, Hstop, S1.
      simpl. rewrite Es. unfold messages. simpl. rewrite !app_nil_r.
      repeat split; auto.
    + destruct (IH (set_backoff (Z.min (_backoff_seconds p1 * 2) 60) p1) S1)
        as (p' & t' & E' & T' & S' & P' & F' & C').
      simpl in T', P'.
      rewrite (Hnosig eq_refl _ _ E'). exists p'. eexists. split; [reflexivity|].
      change (WsConnect (stream_url p) :: ?l) with ([WsConnect (stream_url p)] ++ l).
      rewrite !produced_app, !flushes_app, !closes_app, P1, F1, C1, F1, Hstop, S1.
      simpl. rewrite Es, P', F', C', F', T1. unfold messages. simpl.
      rewrite omap_app, map_app.
      repeat split; auto. congruence.
Qed.

Lemma record_of_fields m r :
  record_of json_loads repr m = Some r ->
  exchange r = EXCHANGE /\ upper (symbol r) = symbol r
  /\ ingest_ts r = now_ms m.1 /\ produce_raises m.1 = None.
Proof.
  unfold record_of. destruct (json_loads m.2) as [payload|]; [simpl|discriminate].
  destruct (trade_message payload) as [trade|]; [simpl|discriminate].
  destruct (_format_trade repr (now_ms m.1) trade) as [r'|] eqn:Hf; [|discriminate].
  destruct (produce_raises m.1); [discriminate|]. intros [= <-].
  unfold _format_trade in Hf.
  apply ProducerProofs.bind_Ok in Hf as (z & _ & Hf).
  apply ProducerProofs.bind_Ok in Hf as (sym & Hs & Hf). injection Hf as <-. simpl.
  repeat split.
  destruct (dict_get_default trade "s" (PStr "")); try discriminate.
  injection Hs as <-. apply SetupProofs.upper_idem.
Qed.

End Run.

(** Every delay the loop sleeps lies between 1 and 60 seconds, whatever
    happens in the sessions and however many there are; there is at most
    one delay per session, and the loop never raises. *)
Theorem start_delays_bounded (json_loads : string -> option pyval) (repr : pyval -> string)
    (override : option string) (symbols : list string) (topic : string)
    (sessions : list (list ws_event)) :
  exists p t,
    start json_loads repr sessions (init override symbols topic) = Ok (p, t)
    /\ Forall (fun d => 1 <= d <= 60) (sleeps t)
    /\ 1 <= _backoff_seconds p <= 60
    /\ (length (sleeps t) <= length sessions)%nat.
Proof. apply start_sleeps_bounded. simpl. lia. Qed.

(** The records a run produces are exactly those its messages stand for,
    in the order of arrival and each once: one for every message, up to the
    end of the session in which a signal arrives, whose text decodes to a
    trade that can be formatted and that the client accepts, and none for
    any other message or event. Each is produced to the producer's topic
    under its symbol as key, names the exchange, has its symbol in upper
    case and the clock reading of its message as ingest time. *)
Theorem start_produces_in_order (json_loads : string -> option pyval)
    (repr : pyval -> string) (override : option string) (symbols : list string)
    (topic : string) (sessions : list (list ws_event)) :
  (exists p t,
      start json_loads repr sessions (init override symbols topic) = Ok (p, t)
      /\ produced t = map (fun r => (topic, symbol r, r))
                          (omap (record_of json_loads repr) (messages (served sessions))))
  /\ (forall m r,
        record_of json_loads repr m = Some r ->
        exchange r = EXCHANGE /\ upper (symbol r) = symbol r
        /\ ingest_ts r = now_ms m.1 /\ produce_raises m.1 = None).
Proof.
  split; [|apply record_of_fields].
  destruct (start_effects json_loads repr sessions (init override symbols topic) eq_refl)
    as (p & t & E & _ & _ & P & _).
  exists p, t. split; [exact E|exact P].
Qed.

(** In a run in which the handler of each termination signal has ended
    before the next signal arrives, the client is flushed and the socket
    closed exactly once when a signal arrives in one of the sessions,
    however many such signals follow, and never otherwise. (A signal that
    interrupts the handler before it has set the stop event is not among
    the events of a session.) *)
Theorem start_shuts_down_once (json_loads : string -> option pyval)
    (repr : pyval -> string) (override : option string) (symbols : list string)
    (topic : string) (sessions : list (list ws_event)) :
  exists p t,
    start json_loads repr sessions (init override symbols topic) = Ok (p, t)
    /\ stop_event p = existsb signalled sessions
    /\ flushes t = (if existsb signalled sessions then 1 else 0)%nat
    /\ closes t = flushes t.
Proof.
  destruct (start_effects json_loads repr sessions (init override symbols topic) eq_refl)
    as (p & t & E & _ & S & _ & F & C).
  exists p, t. rewrite <- S. auto.
Qed.

(** Once [stop] has run, the socket errors of the session are not logged
    any more; before, each one is. *)
Theorem socket_errors_silent_after_stop (json_loads : string -> option pyval)
    (repr : pyval -> string) (p : producer) :
  (forall events, exists p' t,
      run_forever json_loads repr events (stop p).1 = Ok (p', t)
      /\ Forall (fun e => is_socket_error e = false) t)
  /\ (forall error, stop_event p = false ->
        dispatch json_loads repr (EvError error) p =
          Ok (p, [Log ERROR "WebSocket error: %s" [error]])).
Proof.
  split.
  - intros events.
    destruct (ProducerProofs.run_forever_returns json_loads repr events (stop p).1)
      as (p' & t & E).
    exists p', t. split; [exact E|].
    apply (run_forever_effects _ _ _ _ _ _ E), ProducerProofs.stop_sets_event.
  - intros error Hs. simpl. unfold _on_error. now rewrite Hs.
Qed.



(** A record the client refuses is lost: when [produce] raises, for a
    full queue as for any other failure, the handler logs the error, does
    not poll and does not try again, and the session goes on with the next
    event. *)
Theorem produce_failure_drops_record (json_loads : string -> option pyval)
    (repr : pyval -> string) (env : msg_env) (message : string) (p : producer)
    (payload : pyval) (trade : gmap string pyval) (r : TradeRecord)
    (f : produce_failure) :
  json_loads message = Some payload -> trade_message payload = Some trade ->
  _format_trade repr (now_ms env) trade = Ok r ->
  produce_raises env = Some f ->
  _on_message json_loads repr env message p =
    Ok [Log ERROR "Failed to process trade: %s" [exn_name (produce_exn f)]]
  /\ forall events p' t,
       run_forever json_loads repr events p = Ok (p', t) ->
       run_forever json_loads repr (EvMessage env message :: events) p =
         Ok (p', Log ERROR "Failed to process trade: %s" [exn_name (produce_exn f)] :: t).
Proof.
  intros Hj Ht Hf Hp.
  assert (E : _on_message json_loads repr env message p =
              Ok [Log ERROR "Failed to process trade: %s" [exn_name (produce_exn f)]]).
  { unfold _on_message.
    rewrite (ProducerProofs.on_message_try_trade json_loads repr env message p
               payload trade Hj Ht), Hf, Hp.
    destruct f; reflexivity. }
  split; [exact E|].
  intros events p' t Er. simpl. rewrite E. simpl. rewrite Er. reflexivity.
Qed.

Lemma produce_failure_drops_record_witness :
  _on_message (decodes_to "trade" (PDict binance_trade)) (fun _ => "")
    {| now_ms := 1700000000123; produce_raises := Some QueueFull |} "trade" sample_producer
  = Ok [Log ERROR "Failed to process trade: %s" ["BufferError"]].
Proof.
  apply (produce_failure_drops_record (decodes_to "trade" (PDict binance_trade))
           (fun _ => "") {| now_ms := 1700000000123; produce_raises := Some QueueFull |}
           "trade" sample_producer (PDict binance_trade) binance_trade binance_record
           QueueFull);
    vm_compute; reflexivity.
Defined.

End RunProofs.

(** * Properties of the alert job as a whole *)

Module JobProofs.
Import SqlTime AnomalyDetector JobKeys.

Lemma filter_remove_dups {A : Type} `{EqDecision A} (P : A -> Prop)
    `{forall x, Decision (P x)} (l : list A) :
  filter P (remove_dups l) = remove_dups (filter P l).
Proof.
  induction l as [|x l IH]; [reflexivity|]. simpl.
  rewrite (filter_cons P x l). destruct (decide (P x)) as [HP|HP]; simpl.
  - destruct (decide_rel elem_of x l) as [Hx|Hx],
             (decide_rel elem_of x (filter P l)) as [Hx'|Hx'].
    + exact IH.
    + exfalso. apply Hx', list_elem_of_filter. auto.
    + exfalso. apply list_elem_of_filter in Hx' as [_ Hx']. auto.
    + rewrite filter_cons, decide_True by exact HP. now rewrite IH.
  - destruct (decide_rel elem_of x l) as [Hx|Hx]; [exact IH|].
    rewrite filter_cons, decide_False by exact HP. exact IH.
Qed.

Lemma filter_fmap {A B : Type} (f : A -> B) (P : B -> Prop) `{forall y, Decision (P y)}
    (l : list A) :
  filter P (f <$> l) = f <$> filter (fun x => P (f x)) l.
Proof.
  induction l as [|x l IH]; [reflexivity|].
  rewrite fmap_cons, !filter_cons.
  destruct (decide (P (f x))); [rewrite fmap_cons|]; now rewrite IH.
Qed.

Lemma NoDup_fmap_filter {A B : Type} (f : A -> B) (P : A -> bool) (l : list A) :
  NoDup (f <$> l) -> NoDup (f <$> List.filter P l).
Proof.
  induction l as [|x l IH]; simpl; [auto|].
  rewrite NoDup_cons. intros [Hx Hl]. destruct (P x); [|auto].
  simpl. apply NoDup_cons. split; [|auto].
  intros Hin. apply Hx. apply list_elem_of_fmap in Hin as (y & -> & Hy).
  apply list_elem_of_fmap. exists y. split; [reflexivity|].
  apply list_elem_of_In, List.filter_In in Hy as [Hy _]. now apply list_elem_of_In.
Qed.

Lemma remove_dups_length {A : Type} `{EqDecision A} (l : list A) :
  (length (remove_dups l) <= length l)%nat.
Proof.
  induction l as [|x l IH]; simpl; [lia|].
  destruct (decide_rel elem_of x l); simpl; lia.
Qed.

Section Job.

Context {D : Type} `{SqlDouble D}.

Lemma group_of_window_row (k : Z * string * string) (rows : list TradeRow) :
  group_of (window_row k rows) = k.
Proof.
  destruct k as [[a b] c]. unfold group_of, window_row. simpl. f_equal. f_equal. lia.
Qed.

Lemma windowed_trades_groups (trades_raw : list TradeRow) :
  (group_of : WindowRow D -> _) <$> windowed_trades trades_raw
  = remove_dups (group_key <$> trades_raw).
Proof.
  unfold windowed_trades. change map with (@fmap list _).
  rewrite <- list_fmap_compose.
  rewrite <- (list_fmap_id (remove_dups (group_key <$> trades_raw))) at 2.
  apply list_fmap_ext. intros i k _. apply group_of_window_row.
Qed.

(** The [ts] of the alert of a row of the view, for event times from 1970
    to the year 9999. *)
Lemma alert_ts_of_view_row (trades_raw : list TradeRow) (w : WindowRow D) :
  Forall (fun r => 0 <= ts r <= MAX_TIMESTAMP - INTERVAL_SECOND 10) trades_raw ->
  w ∈ windowed_trades trades_raw ->
  a_ts (alert_row w) = Some (window_end w).
Proof.
  intros Hall Hw.
  destruct (AnomalyDetectorProofs.window_end_range trades_raw w Hall Hw) as [Hr Hm].
  unfold alert_row. cbn [a_ts].
  rewrite SqlTimeProofs.UNIX_TIMESTAMP_CAST by exact Hr.
  cbn [fmap option_fmap option_map]. f_equal. Z.div_mod_to_equations. lia.
Qed.

(** No two alerts of a run of the job have the same [ts], [symbol] and
    [exchange], for trades with event times from 1970 to the year 9999:
    a window of a symbol on an exchange is reported at most once. *)
Theorem alerts_distinct (trades_raw : list TradeRow) :
  Forall (fun r => 0 <= ts r <= MAX_TIMESTAMP - INTERVAL_SECOND 10) trades_raw ->
  NoDup (alert_key <$> main trades_raw).
Proof.
  intros Hall. unfold main, insert_into_alerts. change map with (@fmap list _).
  rewrite <- list_fmap_compose.
  assert (Heq : (alert_key ∘ alert_row) <$> List.filter where_volume (windowed_trades trades_raw)
                = ((fun k : Z * string * string => (Some (k.1.1 + INTERVAL_SECOND 10), k.1.2, k.2))
                     ∘ group_of)
                    <$> List.filter where_volume (windowed_trades trades_raw)).
  { apply Forall_fmap_ext_1, Forall_forall. intros w Hw.
    apply list_elem_of_In, List.filter_In in Hw as [Hw _]. apply list_elem_of_In in Hw.
    unfold alert_key, group_of, compose. cbn [fst snd].
    rewrite (alert_ts_of_view_row trades_raw w Hall Hw).
    unfold alert_row. cbn [a_symbol a_exchange].
    f_equal. f_equal. f_equal. lia. }
  rewrite Heq, list_fmap_compose.
  assert (Hinj : Inj eq eq
            (fun k : Z * string * string => (Some (k.1.1 + INTERVAL_SECOND 10), k.1.2, k.2))).
  { intros [[a b] c] [[a' b'] c'] [= Ha Hb Hc]. simpl in *. f_equal; [f_equal|]; auto. lia. }
  apply (NoDup_fmap_2 _), NoDup_fmap_filter.
  rewrite windowed_trades_groups. apply NoDup_remove_dups.
Qed.

Lemma group_rows_insert (k : Z * string * string) (before after : list TradeRow)
    (r : TradeRow) :
  group_rows k (before ++ r :: after)
  = if decide (group_key r = k)
    then group_rows k before ++ r :: group_rows k after
    else group_rows k (before ++ after).
Proof.
  unfold group_rows. rewrite !filter_app, filter_cons.
  destruct (decide (group_key r = k)); reflexivity.
Qed.

(** The view as a relation: with a row put anywhere among the rows it is
    given, the rows of the view for the other groups, and their order, are
    what they are without it, and the row of its own group aggregates the
    group's earlier rows, the row and the group's later rows, in this
    order. *)
Lemma windowed_trades_insert (before after : list TradeRow) (r : TradeRow) :
  filter (fun w : WindowRow D => group_of w <> group_key r)
         (windowed_trades (before ++ r :: after))
  = filter (fun w : WindowRow D => group_of w <> group_key r)
           (windowed_trades (before ++ after))
  /\ window_row (group_key r)
        (group_rows (group_key r) before ++ r :: group_rows (group_key r) after)
     ∈ windowed_trades (before ++ r :: after).
Proof.
  split.
  - unfold windowed_trades. change map with (@fmap list _).
    rewrite !filter_fmap.
    assert (Hk : forall l : list TradeRow,
      filter (fun k => group_of (window_row (D:=D) k (group_rows k l)) <> group_key r)
             (remove_dups (group_key <$> l))
      = remove_dups (filter (fun k => k <> group_key r) (group_key <$> l))).
    { intros l. rewrite <- filter_remove_dups. apply list_filter_iff.
      intros k. now rewrite group_of_window_row. }
    rewrite !Hk.
    assert (Hkeys : filter (fun k => k <> group_key r) (group_key <$> (before ++ r :: after))
                    = filter (fun k => k <> group_key r) (group_key <$> (before ++ after))).
    { rewrite !fmap_app, fmap_cons, !filter_app, filter_cons.
      now rewrite decide_False by (intros Hne; now apply Hne). }
    rewrite Hkeys. apply Forall_fmap_ext_1, Forall_forall. intros k Hk'.
    apply elem_of_remove_dups, list_elem_of_filter in Hk' as [Hne _].
    rewrite group_rows_insert. now rewrite decide_False by (intros E; now apply Hne).
  - apply AnomalyDetectorProofs.elem_of_windowed_trades. exists r. split.
    + apply elem_of_app. right. constructor.
    + rewrite group_rows_insert. now rewrite decide_True by reflexivity.
Qed.

(** The view has at most one row per trade and the job makes at most one
    alert per row of the view: never more alerts than trades, and none
    without trades. *)
Theorem alerts_bounded (trades_raw : list TradeRow) :
  (length (main trades_raw) <= length (windowed_trades trades_raw))%nat
  /\ (length (windowed_trades trades_raw) <= length trades_raw)%nat
  /\ main [] = [].
Proof.
  split; [|split; [|reflexivity]].
  - unfold main, insert_into_alerts. rewrite length_map. apply List.filter_length_le.
  - unfold windowed_trades. rewrite length_map.
    etransitivity; [apply remove_dups_length|]. now rewrite length_fmap.
Qed.

End Job.

Lemma alerts_distinct_witness :
  Forall (fun r => 0 <= ts r <= MAX_TIMESTAMP - INTERVAL_SECOND 10) scenario_A
  /\ NoDup (alert_key <$> @main float (binary64 (fun _ => "")) scenario_A).
Proof.
  assert (Hall : Forall (fun r => 0 <= ts r <= MAX_TIMESTAMP - INTERVAL_SECOND 10)
                   scenario_A).
  { repeat constructor; vm_compute; discriminate. }
  split; [exact Hall|].
  exact (@alerts_distinct float (binary64 (fun _ => "")) scenario_A Hall).
Defined.

End JobProofs.

(** * Properties of the job in streaming mode *)

Module StreamingProofs.
Import SqlTime AnomalyDetector JobKeys Streaming.

Lemma admitted_app (l1 l2 : list Arrival) : admitted (l1 ++ l2) = admitted l1 ++ admitted l2.
Proof. unfold admitted. now rewrite List.filter_app, map_app. Qed.

Lemma admitted_cons (a : Arrival) (l : list Arrival) :
  admitted (a :: l) = (if late a then [] else [row a]) ++ admitted l.
Proof. unfold admitted. simpl. destruct (late a); reflexivity. Qed.

(** The operator's watermark when a row arrives is at most any bound on
    the declared watermarks of the rows read before. *)
Lemma consistent_from_bound (before after : list Arrival) (a : Arrival) (B : Z) :
  forall previous bound,
    consistent_from previous bound (before ++ a :: after) = true ->
    bound <= B ->
    Forall (fun b => watermark_of (row b) <= B) before ->
    operator_watermark a <= B.
Proof.
  induction before as [|b before IH]; intros previous bound Hc Hb Hall; simpl in Hc.
  - apply andb_true_iff in Hc as [Hc _]. apply andb_true_iff in Hc as [_ Hc]. lia.
  - apply andb_true_iff in Hc as [_ Hc]. apply Forall_cons in Hall as [Hb' Hall].
    apply (IH _ _ Hc); [lia|exact Hall].
Qed.

Section Job.

Context {D : Type} `{SqlDouble D}.

Lemma elem_of_emitted_rows (arrivals : list Arrival) (wm : Z) (w : WindowRow D) :
  w ∈ emitted_rows arrivals wm <->
  window_end w - 1 <= wm /\ w ∈ windowed_trades (admitted arrivals).
Proof. unfold emitted_rows. rewrite list_elem_of_filter. reflexivity. Qed.

End Job.

(** C1, as stated, fails: a trade whose event time lies in the interval of
    a window is not aggregated when it arrives late. In scenario C the
    watermark has reached 10 s when the trade at 9 s arrives: the row given
    out for the window [[0 s, 10 s)] has volume 0.4 + 0.5, below the
    threshold, and no alert is written, while the three trades with event
    times in the interval have quantities that sum to more than 1.0. *)
Lemma late_trade_not_aggregated_counterexample :
  consistent scenario_C_arrivals = true
  /\ filter (in_window "binance" "BTCUSDT" 0) (map row scenario_C_arrivals)
     = [btc_trade 1000 "1" "0.4"; btc_trade 4200 "2" "0.5"; btc_trade 9000 "4" "0.8"]
  /\ PrimFloat.ltb (float_of_decimal "1.0")
       (PrimFloat.add (PrimFloat.add (PrimFloat.add (float_of_Z 0) (float_of_decimal "0.4"))
                         (float_of_decimal "0.5")) (float_of_decimal "0.8")) = true
  /\ exists w,
       @emitted_rows float (binary64 (fun _ => "")) scenario_C_arrivals 10000 = [w]
       /\ window_end w = 10000 /\ w_symbol w = "BTCUSDT" /\ w_exchange w = "binance"
       /\ volume w = float_of_decimal "0.9"
       /\ PrimFloat.ltb (float_of_decimal "1.0") (volume w) = false
       /\ @emitted_alerts float (binary64 (fun _ => "")) scenario_C_arrivals 10000 = [].
Proof.
  split; [vm_compute; reflexivity|].
  split; [vm_compute; reflexivity|].
  split; [vm_compute; reflexivity|].
  eexists. split; [vm_compute; reflexivity|].
  repeat split; vm_compute; reflexivity.
Qed.

(** C1, amended: a row given out by the view aggregates exactly the trades
    of its (exchange, symbol) whose event time lies in the half-open
    interval [[windowStart, windowStart + 10 s)] and that were not late when
    they arrived: at least one trade, [volume] their quantities added up in
    the order of arrival and [avg_price] their prices added up, divided by
    their number. Every trade that is not late is in the window of exactly
    one row, given out once the watermark reaches the window's last
    millisecond. A trade whose event time is the start of a window belongs
    to that window, and one whose event time is the end of a window does
    not. A late trade changes nothing. With the declared watermark a trade
    is not late if every trade read before it has an event time less than
    4999 ms after the end of its window. *)
Theorem emitted_rows_aggregate {D : Type} `{SqlDouble D} (arrivals : list Arrival) (wm : Z) :
  (forall w, w ∈ emitted_rows arrivals wm ->
     let trades := filter (in_window (w_exchange w) (w_symbol w)
                             (window_end w - INTERVAL_SECOND 10)) (admitted arrivals) in
     trades <> []
     /\ volume w = fold_left double_plus (map (fun r => CAST_AS_DOUBLE (qty r)) trades)
                             (double_of_bigint 0)
     /\ avg_price w =
          double_div (fold_left double_plus (map (fun r => CAST_AS_DOUBLE (price r)) trades)
                                (double_of_bigint 0))
                     (double_of_bigint (Z.of_nat (length trades))))
  /\ (forall r, r ∈ admitted arrivals ->
        TUMBLE_END (rowtime r) (INTERVAL_SECOND 10) - 1 <= wm ->
        exists w, w ∈ emitted_rows arrivals wm
                  /\ in_window (w_exchange w) (w_symbol w)
                       (window_end w - INTERVAL_SECOND 10) r
                  /\ forall w', w' ∈ emitted_rows arrivals wm ->
                       in_window (w_exchange w') (w_symbol w')
                         (window_end w' - INTERVAL_SECOND 10) r ->
                       w' = w)
  /\ (forall r w, r ∈ admitted arrivals -> w ∈ emitted_rows arrivals wm ->
        exchange r = w_exchange w -> symbol r = w_symbol w ->
        let trades := filter (in_window (w_exchange w) (w_symbol w)
                                (window_end w - INTERVAL_SECOND 10)) (admitted arrivals) in
        (ts r = window_end w - INTERVAL_SECOND 10 -> r ∈ trades)
        /\ (ts r = window_end w -> r ∉ trades))
  /\ (forall before a after,
        arrivals = before ++ a :: after -> late a = true ->
        emitted_rows arrivals wm = emitted_rows (before ++ after) wm)
  /\ (forall before a after,
        arrivals = before ++ a :: after -> consistent arrivals = true ->
        - 2 ^ 63 <= ts (row a) ->
        Forall (fun b => ts (row b) < TUMBLE_END (rowtime (row a)) (INTERVAL_SECOND 10) + 4999)
               before ->
        late a = false).
Proof.
  destruct (AnomalyDetectorProofs.windowed_trades_spec (admitted arrivals))
    as (Hagg & Hone & Hedge).
  split; [|split; [|split; [|split]]].
  - intros w Hw. apply elem_of_emitted_rows in Hw as [_ Hw]. exact (Hagg w Hw).
  - intros r Hr Hclosed. destruct (Hone r Hr) as (w & Hw & Hin & Huniq).
    exists w. split; [|split; [exact Hin|]].
    + apply elem_of_emitted_rows. split; [|exact Hw].
      apply AnomalyDetectorProofs.elem_of_windowed_trades in Hw as (r' & Hr' & ->).
      destruct Hin as (_ & _ & Hin).
      unfold window_row in *. cbn [window_end w_symbol w_exchange] in *.
      pose proof (AnomalyDetectorProofs.group_key_multiple r') as Hm.
      assert (Hs : TUMBLE_START (rowtime r) (INTERVAL_SECOND 10) = (group_key r').1.1).
      { apply AnomalyDetectorProofs.TUMBLE_START_spec; [reflexivity|].
        split; [exact Hm|]. unfold rowtime, TO_TIMESTAMP_LTZ. lia. }
      unfold TUMBLE_END in Hclosed. lia.
    + intros w' Hw' Hin'. apply elem_of_emitted_rows in Hw' as [_ Hw']. auto.
  - intros r w Hr Hw. apply elem_of_emitted_rows in Hw as [_ Hw]. exact (Hedge r w Hr Hw).
  - intros before a after -> Hlate. unfold emitted_rows.
    now rewrite !admitted_app, admitted_cons, Hlate.
  - intros before a after -> Hc Hts Hall. unfold late.
    apply Z.leb_gt.
    assert (Hend : TUMBLE_END (rowtime (row a)) (INTERVAL_SECOND 10) mod 10000 = 0
                   /\ ts (row a) < TUMBLE_END (rowtime (row a)) (INTERVAL_SECOND 10)).
    { unfold TUMBLE_END, TUMBLE_START, rowtime, TO_TIMESTAMP_LTZ, INTERVAL_SECOND.
      Z.div_mod_to_equations. lia. }
    destruct Hend as [Hm Hlt].
    assert (Hb : operator_watermark a
                 <= TUMBLE_END (rowtime (row a)) (INTERVAL_SECOND 10) - 2);
      [|lia].
    apply (consistent_from_bound before after a _ _ _ Hc).
    + unfold MIN_WATERMARK in *.
      change (- 2 ^ 63) with (-9223372036854775808) in *.
      Z.div_mod_to_equations. lia.
    + eapply Forall_impl; [exact Hall|]. intros b Hb. simpl in Hb.
      unfold watermark_of, rowtime, TO_TIMESTAMP_LTZ, INTERVAL_SECOND in *. lia.
Qed.

(** In scenario C the trade at 4.2 s arrives after the trade at 1 s only,
    and is not late. *)
Lemma emitted_rows_aggregate_witness :
  consistent scenario_C_arrivals = true
  /\ late {| row := btc_trade 4200 "2" "0.5"; operator_watermark := -4000 |} = false.
Proof.
  assert (Hc : consistent scenario_C_arrivals = true) by (vm_compute; reflexivity).
  split; [exact Hc|].
  apply (proj2 (proj2 (proj2 (proj2
           (@emitted_rows_aggregate float (binary64 (fun _ => "")) scenario_C_arrivals 10000))))
           [ {| row := btc_trade 1000 "1" "0.4"; operator_watermark := MIN_WATERMARK |} ]
           {| row := btc_trade 4200 "2" "0.5"; operator_watermark := -4000 |}
           [ {| row := btc_trade 15000 "3" "0.3"; operator_watermark := -800 |};
             {| row := btc_trade 9000 "4" "0.8"; operator_watermark := 10000 |} ]).
  - reflexivity.
  - exact Hc.
  - vm_compute. discriminate.
  - repeat constructor.
Defined.

(** Given the watermark at which each of the other trades arrives, a trade
    changes only the row of its own group: with the trade put anywhere
    among the arrivals, the rows given out for the other groups, and their
    order, are what they are without it. A late trade changes no row at
    all; a trade that is not late is aggregated in the row of its group,
    after the group's earlier trades and before its later ones, and that
    row is given out once the watermark reaches the last millisecond of
    the window. *)
Theorem emitted_rows_insert {D : Type} `{SqlDouble D} (before after : list Arrival)
    (a : Arrival) (wm : Z) :
  filter (fun w : WindowRow D => group_of w <> group_key (row a))
         (emitted_rows (before ++ a :: after) wm)
  = filter (fun w : WindowRow D => group_of w <> group_key (row a))
           (emitted_rows (before ++ after) wm)
  /\ (late a = true ->
      emitted_rows (D:=D) (before ++ a :: after) wm = emitted_rows (before ++ after) wm)
  /\ (late a = false ->
      TUMBLE_END (rowtime (row a)) (INTERVAL_SECOND 10) - 1 <= wm ->
      window_row (D:=D) (group_key (row a))
        (group_rows (group_key (row a)) (admitted before)
           ++ row a :: group_rows (group_key (row a)) (admitted after))
      ∈ emitted_rows (before ++ a :: after) wm).
Proof.
  assert (Hlate : late a = true ->
            emitted_rows (D:=D) (before ++ a :: after) wm = emitted_rows (before ++ after) wm).
  { intros Hl. unfold emitted_rows. now rewrite !admitted_app, admitted_cons, Hl. }
  split; [|split; [exact Hlate|]].
  - destruct (late a) eqn:Hl; [now rewrite Hlate|].
    unfold emitted_rows. rewrite !admitted_app, admitted_cons, Hl. simpl.
    rewrite !list_filter_filter.
    rewrite (list_filter_iff
               (fun w : WindowRow D => group_of w <> group_key (row a) /\ window_end w - 1 <= wm)
               (fun w : WindowRow D => window_end w - 1 <= wm /\ group_of w <> group_key (row a)))
      by (intros; tauto).
    rewrite (list_filter_iff
               (fun w : WindowRow D => group_of w <> group_key (row a) /\ window_end w - 1 <= wm)
               (fun w : WindowRow D => window_end w - 1 <= wm /\ group_of w <> group_key (row a))
               (windowed_trades (admitted before ++ admitted after)))
      by (intros; tauto).
    rewrite <- !list_filter_filter.
    now rewrite (proj1 (JobProofs.windowed_trades_insert (admitted before) (admitted after)
                         (row a))).
  - intros Hl Hclosed. apply elem_of_emitted_rows. split.
    + unfold window_row, group_key. cbn [window_end fst snd]. unfold TUMBLE_END in Hclosed. lia.
    + rewrite !admitted_app, admitted_cons, Hl. simpl.
      apply (JobProofs.windowed_trades_insert (admitted before) (admitted after) (row a)).
Qed.

End StreamingProofs.
